(** * SSproject1: the users/posts CRUD service of [main.py]

    A shallow embedding of the FastAPI handlers of [main.py] and of the
    part of the SQLAlchemy session they drive, followed by the properties
    of the service's specification.

    Conventions of the model:
    - a table is the list of its rows in rowid order; the two tables make
      up the [Database];
    - Python [int] is [Z], unbounded as Python has it. An integer that
      comes with a request (an id in a path, the [user_id] of a body) is
      checked against the signed 64-bit range where the database binds
      it as a parameter. The keys the database assigns and the like
      count, which move by one per request, are not bounded in the
      model: a property that starts from an arbitrary stored like count
      carries the bound as a hypothesis;
    - [str] is [string], holding the UTF-8 bytes of the text as SQLite
      stores them, one [ascii] per byte; [Optional[str]] is
      [option string];
    - a handler runs in a [Session]: attribute writes and [db.add] /
      [db.delete] touch the session's working copy, [db.commit()] writes
      it to the database, and a handler that raises leaves the database
      at its last commit ([get_db] closes the session on every path). *)

From Stdlib Require Import ZArith NArith List String Ascii Bool Lia.
Import ListNotations.
Local Open Scope string_scope.
Local Open Scope Z_scope.

(** ** SQLAlchemy models (the rows) *)

Module UserDB.
Record t := mk
  { id : Z; username : string; is_admin : bool; image_url : option string }.
End UserDB.

Module PostDB.
Record t := mk
  { id : Z; title : string; post_text : string; likes : Z; user_id : Z }.
End PostDB.

(** ** Pydantic models (request and response bodies) *)

Module UserCreate.
Record t := mk
  { name : string; is_admin : bool; image_url : option string }.
End UserCreate.

Module User.
Record t := mk
  { name : string; is_admin : bool; image_url : option string; id : Z }.
End User.

Module PostCreate.
Record t := mk { title : string; post_text : string; user_id : Z }.
End PostCreate.

Module Post.
Record t := mk
  { title : string; post_text : string; user_id : Z; id : Z; likes : Z }.
End Post.

(** ** The database and the session *)

Record Database := mkDatabase
  { users : list UserDB.t; posts : list PostDB.t }.

(** [Base.metadata.create_all] on a fresh file: two empty tables. *)
Definition empty_db : Database := mkDatabase [] [].

Record Session := Session_of
  { committed : Database;   (* what the database file holds *)
    working : Database;     (* the same, with the uncommitted changes *)
    bound : list Z }.       (* integers of the request the flush will bind *)

(** A session with nothing to flush. *)
Definition mkSession (c w : Database) : Session := Session_of c w [].

Inductive Exception :=
| HTTPException (status_code : Z) (detail : string)
| AttributeError (class_name attribute : string)
| InvalidRequestError
| OverflowError
| OperationalError (message : string).

(** The integers SQLite binds and stores: signed, 64 bits. A Python [int]
    outside this range cannot be bound as a parameter; the driver raises
    [OverflowError]. *)
Definition int64 (n : Z) : bool := (- 2 ^ 63 <=? n) && (n <=? 2 ^ 63 - 1).

(** Handlers are computations over the session that may raise. *)
Definition M (A : Type) : Type := Session -> (Exception + A) * Session.

Definition ret {A} (a : A) : M A := fun s => (inr a, s).

Definition bind {A B} (c : M A) (k : A -> M B) : M B :=
  fun s => match c s with
           | (inl e, s') => (inl e, s')
           | (inr a, s') => k a s'
           end.

Definition raise {A} (e : Exception) : M A := fun s => (inl e, s).

Notation "x <- c ;; k" := (bind c (fun x => k))
  (at level 61, c at next level, right associativity).
Notation "c ;;; k" := (bind c (fun _ => k))
  (at level 61, right associativity).

(** [get_db]: open a session on the database, run the handler, close the
    session. What was not committed is gone. *)
Definition serve {A} (h : M A) (db : Database) : (Exception + A) * Database :=
  let (r, s) := h (mkSession db db) in (r, committed s).

(** *** Primary keys *)

(** SQLite gives a new row the largest rowid in use plus one, and 1 in an
    empty table. *)
Definition next_id (ids : list Z) : Z :=
  match ids with
  | [] => 1
  | i :: rest => fold_left Z.max rest i + 1
  end.

(** *** Session primitives *)

Definition on_working (f : Database -> Database) : M unit :=
  fun s => (inr tt, Session_of (committed s) (f (working s)) (bound s)).

(** An integer of the request becomes a parameter of the next flush. *)
Definition binding (n : Z) : M unit :=
  fun s => (inr tt, Session_of (committed s) (working s) (n :: bound s)).

(** [db.query(UserDB).filter(criterion).all()]: the WHERE clause is
    evaluated row by row, and the query fails where its evaluation
    does. *)
Fixpoint select_where {R} (criterion : R -> Exception + bool)
    (rows : list R) : Exception + list R :=
  match rows with
  | [] => inr []
  | r :: rest =>
      match criterion r with
      | inl e => inl e
      | inr b =>
          match select_where criterion rest with
          | inl e => inl e
          | inr selected => inr (if b then r :: selected else selected)
          end
      end
  end.

Definition query_users (criterion : UserDB.t -> Exception + bool)
    : M (list UserDB.t) :=
  fun s => (select_where criterion (users (working s)), s).

Definition query_posts (criterion : PostDB.t -> Exception + bool)
    : M (list PostDB.t) :=
  fun s => (select_where criterion (posts (working s)), s).

(** [db.query(UserDB).filter(UserDB.id == user_id).first()]. The id is
    bound as a parameter of the SELECT: one that does not fit 64 bits
    makes the query raise [OverflowError]. A table holds no key outside
    that range, so such an id never names a row; the check is written
    after the lookup, which is the same on every table SQLite can hold
    and leaves the lookup of a stored key independent of the range. *)
Definition first_user (user_id : Z) : M (option UserDB.t) :=
  fun s => match find (fun u => UserDB.id u =? user_id) (users (working s)) with
           | Some u => (inr (Some u), s)
           | None => if int64 user_id then (inr None, s)
                     else (inl OverflowError, s)
           end.

Definition first_post (post_id : Z) : M (option PostDB.t) :=
  fun s => match find (fun p => PostDB.id p =? post_id) (posts (working s)) with
           | Some p => (inr (Some p), s)
           | None => if int64 post_id then (inr None, s)
                     else (inl OverflowError, s)
           end.

(** [db.add(UserDB(username=..., is_admin=..., image_url=...))]; the key
    the INSERT assigns is returned. *)
Definition add_user (username : string) (is_admin : bool)
    (image_url : option string) : M Z :=
  fun s =>
    let w := working s in
    let pk := next_id (map UserDB.id (users w)) in
    (inr pk,
     Session_of (committed s)
       (mkDatabase (users w ++ [UserDB.mk pk username is_admin image_url])
                   (posts w))
       (bound s)).

(** [db.add(PostDB(title=..., post_text=..., user_id=...))]; the column
    default fills [likes] with 0, and [user_id] is a parameter of the
    INSERT that the flush emits. *)
Definition add_post (title post_text : string) (user_id : Z) : M Z :=
  fun s =>
    let w := working s in
    let pk := next_id (map PostDB.id (posts w)) in
    (inr pk,
     Session_of (committed s)
       (mkDatabase (users w)
                   (posts w ++ [PostDB.mk pk title post_text 0 user_id]))
       (user_id :: bound s)).

(** Attribute writes on a loaded row reach the table as
    UPDATE ... SET ... WHERE id = pk. *)
Definition rewrite_rows {R} (key : R -> Z) (pk : Z) (f : R -> R)
    (rows : list R) : list R :=
  map (fun r => if key r =? pk then f r else r) rows.

Definition update_users (pk : Z) (f : UserDB.t -> UserDB.t) : M unit :=
  on_working (fun w =>
    mkDatabase (rewrite_rows UserDB.id pk f (users w)) (posts w)).

Definition update_posts (pk : Z) (f : PostDB.t -> PostDB.t) : M unit :=
  on_working (fun w =>
    mkDatabase (users w) (rewrite_rows PostDB.id pk f (posts w))).

Definition set_username (pk : Z) (v : string) : M unit :=
  update_users pk (fun u =>
    UserDB.mk (UserDB.id u) v (UserDB.is_admin u) (UserDB.image_url u)).

Definition set_is_admin (pk : Z) (v : bool) : M unit :=
  update_users pk (fun u =>
    UserDB.mk (UserDB.id u) (UserDB.username u) v (UserDB.image_url u)).

Definition set_image_url (pk : Z) (v : option string) : M unit :=
  update_users pk (fun u =>
    UserDB.mk (UserDB.id u) (UserDB.username u) (UserDB.is_admin u) v).

Definition set_title (pk : Z) (v : string) : M unit :=
  update_posts pk (fun p =>
    PostDB.mk (PostDB.id p) v (PostDB.post_text p) (PostDB.likes p)
              (PostDB.user_id p)).

Definition set_post_text (pk : Z) (v : string) : M unit :=
  update_posts pk (fun p =>
    PostDB.mk (PostDB.id p) (PostDB.title p) v (PostDB.likes p)
              (PostDB.user_id p)).

Definition set_user_id (pk : Z) (v : Z) : M unit :=
  update_posts pk (fun p =>
    PostDB.mk (PostDB.id p) (PostDB.title p) (PostDB.post_text p)
              (PostDB.likes p) v) ;;;
  binding v.

(** The like count is the one integer the model does not bound (see the
    conventions above): its write is not among the parameters checked at
    the flush. *)
Definition set_likes (pk : Z) (v : Z) : M unit :=
  update_posts pk (fun p =>
    PostDB.mk (PostDB.id p) (PostDB.title p) (PostDB.post_text p) v
              (PostDB.user_id p)).

(** [db.delete(db_post)]: DELETE FROM posts WHERE id = pk. *)
Definition delete_posts (pk : Z) : M unit :=
  on_working (fun w =>
    mkDatabase (users w)
               (filter (fun p => negb (PostDB.id p =? pk)) (posts w))).

(** [db.commit()]: the flush binds its parameters and writes the working
    copy; if a parameter does not fit, the flush raises and nothing is
    written. *)
Definition commit : M unit :=
  fun s => if forallb int64 (bound s)
           then (inr tt, mkSession (working s) (working s))
           else (inl OverflowError, mkSession (committed s) (committed s)).

(** [db.refresh(obj)]: reload the row by its key from the database. *)
Definition refresh_user (pk : Z) : M UserDB.t :=
  fun s => match find (fun u => UserDB.id u =? pk) (users (committed s)) with
           | Some u => (inr u, s)
           | None => (inl InvalidRequestError, s)
           end.

Definition refresh_post (pk : Z) : M PostDB.t :=
  fun s => match find (fun p => PostDB.id p =? pk) (posts (committed s)) with
           | Some p => (inr p, s)
           | None => (inl InvalidRequestError, s)
           end.

(** *** Response shapes *)

(** [User(id=u.id, name=u.username, is_admin=u.is_admin,
    image_url=u.image_url)] *)
Definition user_of (u : UserDB.t) : User.t :=
  User.mk (UserDB.username u) (UserDB.is_admin u) (UserDB.image_url u)
          (UserDB.id u).

(** [Post(id=p.id, title=p.title, post_text=p.post_text,
    user_id=p.user_id, likes=p.likes)]; also what [response_model=Post]
    reads from a returned row ([from_attributes]). *)
Definition post_of (p : PostDB.t) : Post.t :=
  Post.mk (PostDB.title p) (PostDB.post_text p) (PostDB.user_id p)
          (PostDB.id p) (PostDB.likes p).

Definition user_not_found : Exception := HTTPException 404 "User not found".
Definition post_not_found : Exception := HTTPException 404 "Post not found".

(** ** Substring filters *)

(** [Column.contains(x)] renders as [column LIKE '%' || x || '%'], with no
    escape character, and SQLite evaluates LIKE with its default rules:
    ['%'] stands for any run of characters, ['_'] for any one character,
    and the letters A-Z match their lower-case forms. SQLite reads both
    operands as C strings of UTF-8, that is up to their first NUL and
    character by character, and refuses a pattern of more than 50000
    bytes. *)

Definition lower (c : ascii) : ascii :=
  let n := N_of_ascii c in
  if ((65 <=? n) && (n <=? 90))%N then ascii_of_N (n + 32) else c.

(** SQLITE_MAX_LIKE_PATTERN_LENGTH *)
Definition like_pattern_limit : N := 50000.

(** A text up to its first NUL. *)
Fixpoint c_string (s : string) : string :=
  match s with
  | EmptyString => EmptyString
  | String c s' => if Ascii.eqb c zero then EmptyString
                   else String c (c_string s')
  end.

(** The characters of a text as SQLite's [sqlite3Utf8Read] yields them. A
    byte below 0xC0 is a character by itself. A byte from 0xC0 on opens
    one: its low bits come from the table [sqlite3Utf8Trans1], every
    continuation byte (10xxxxxx) that follows adds six bits in a 32-bit
    word, and a result that is below 0x80, a surrogate, or 0xFFFE or
    0xFFFF is read as 0xFFFD. *)
Definition utf8_trans1 (n : N) : N :=
  (if n <? 0xE0 then N.land n 0x1F
   else if n <? 0xF0 then N.land n 0x0F
   else if n <? 0xF8 then N.land n 0x07
   else if n <? 0xFC then N.land n 0x03
   else if n <? 0xFE then N.land n 0x01
   else 0)%N.

Definition is_continuation (n : N) : bool := (N.land n 0xC0 =? 0x80)%N.

Definition utf8_close (c : N) : N :=
  (if (c <? 0x80) || (N.land c 0xFFFFF800 =? 0xD800)
      || (N.land c 0xFFFFFFFE =? 0xFFFE)
   then 0xFFFD else c)%N.

Fixpoint utf8_from (open : option N) (s : string) : list N :=
  match s with
  | EmptyString =>
      match open with
      | Some c => [utf8_close c]
      | None => []
      end
  | String b s' =>
      let n := N_of_ascii b in
      match open with
      | Some c =>
          if is_continuation n
          then utf8_from (Some ((N.shiftl c 6 + N.land n 0x3F) mod 2 ^ 32)%N) s'
          else utf8_close c
               :: (if (0xC0 <=? n)%N then utf8_from (Some (utf8_trans1 n)) s'
                   else n :: utf8_from None s')
      | None =>
          if (0xC0 <=? n)%N then utf8_from (Some (utf8_trans1 n)) s'
          else n :: utf8_from None s'
      end
  end.

Definition characters (s : string) : list N := utf8_from None s.

(** [sqlite3Tolower] on a character: only A-Z change. *)
Definition fold_case (c : N) : N :=
  (if (65 <=? c) && (c <=? 90) then c + 32 else c)%N.

(** The match of a pattern against a text, both as characters: 37 is
    ['%'], 95 is ['_']. *)
Fixpoint like (pattern s : list N) : bool :=
  match pattern with
  | [] => match s with [] => true | _ :: _ => false end
  | c :: rest =>
      if (c =? 37)%N then
        (fix skip (s : list N) : bool :=
           like rest s
           || match s with [] => false | _ :: s' => skip s' end) s
      else
        match s with
        | [] => false
        | d :: s' =>
            ((c =? 95)%N || (fold_case c =? fold_case d)%N) && like rest s'
        end
  end.

(** [text LIKE pattern] *)
Definition like_operator (text pattern : string) : Exception + bool :=
  if (like_pattern_limit <? N.of_nat (String.length pattern))%N
  then inl (OperationalError "LIKE or GLOB pattern too complex")
  else inr (like (characters (c_string pattern)) (characters (c_string text))).

Definition contains (column x : string) : Exception + bool :=
  like_operator column ("%" ++ x ++ "%")%string.

(** Literal containment, for comparison: [x] occurs in [s] byte for
    byte. *)
Fixpoint is_prefix (x s : string) : bool :=
  match x, s with
  | EmptyString, _ => true
  | String _ _, EmptyString => false
  | String a x', String b s' => Ascii.eqb a b && is_prefix x' s'
  end.

Fixpoint is_substring (x s : string) : bool :=
  is_prefix x s
  || match s with EmptyString => false | String _ s' => is_substring x s' end.

(** A text with its letters A-Z in lower case. *)
Fixpoint lowercase (s : string) : string :=
  match s with
  | EmptyString => EmptyString
  | String c s' => String (lower c) (lowercase s')
  end.


(** Python truth value of an [Optional[str]]: [None] and [""] are false. *)
Definition truthy (o : option string) : bool :=
  match o with
  | Some (String _ _) => true
  | _ => false
  end.

(** ** User endpoints *)

(** POST /users/ *)
Definition create_user (user : UserCreate.t) : M User.t :=
  pk <- add_user (UserCreate.name user) (UserCreate.is_admin user)
                 (UserCreate.image_url user) ;;
  commit ;;;
  db_user <- refresh_user pk ;;
  ret (user_of db_user).

(** GET /users/ (the first handler registered on the path, which is the
    one the router dispatches to) *)
Definition get_users (name : option string) : M (list User.t) :=
  rows <- query_users
            (match name with
             | Some n => if truthy name
                         then fun u => contains (UserDB.username u) n
                         else fun _ => inr true
             | None => fun _ => inr true
             end) ;;
  ret (map user_of rows).

(** GET /users/{user_id} *)
Definition get_user (user_id : Z) : M User.t :=
  found <- first_user user_id ;;
  match found with
  | None => raise user_not_found
  | Some db_user => ret (user_of db_user)
  end.

(** PUT /users/{user_id} *)
Definition update_user (user_id : Z) (user : UserCreate.t) : M User.t :=
  found <- first_user user_id ;;
  match found with
  | None => raise user_not_found
  | Some db_user =>
      let pk := UserDB.id db_user in
      set_username pk (UserCreate.name user) ;;;
      set_is_admin pk (UserCreate.is_admin user) ;;;
      set_image_url pk (UserCreate.image_url user) ;;;
      commit ;;;
      db_user <- refresh_user pk ;;
      ret (user_of db_user)
  end.

(** PATCH /users/{user_id}/name *)
Definition patch_user_name (user_id : Z) (name : string) : M User.t :=
  found <- first_user user_id ;;
  match found with
  | None => raise user_not_found
  | Some db_user =>
      let pk := UserDB.id db_user in
      set_username pk name ;;;
      commit ;;;
      db_user <- refresh_user pk ;;
      ret (user_of db_user)
  end.

(** ** Post endpoints *)

(** [post.text]: [PostCreate] declares [title], [post_text] and [user_id]
    and nothing called [text], so the attribute lookup raises. *)
Definition getattr_text (post : PostCreate.t) : M string :=
  raise (AttributeError "PostCreate" "text").

(** POST /posts/ (first definition, the one the router dispatches to):
    the row is built from the body's own fields, [post.dict()] *)
Definition create_post (post : PostCreate.t) : M Post.t :=
  pk <- add_post (PostCreate.title post) (PostCreate.post_text post)
                 (PostCreate.user_id post) ;;
  commit ;;;
  db_post <- refresh_post pk ;;
  ret (post_of db_post).

(** POST /posts/ (second definition under the same name and path) *)
Definition create_post_redefined (post : PostCreate.t) : M Post.t :=
  text <- getattr_text post ;;
  pk <- add_post (PostCreate.title post) text (PostCreate.user_id post) ;;
  commit ;;;
  db_post <- refresh_post pk ;;
  ret (post_of db_post).

(** GET /posts/ *)
Definition get_posts (title : option string) : M (list Post.t) :=
  rows <- query_posts
            (match title with
             | Some t => if truthy title
                         then fun p => contains (PostDB.title p) t
                         else fun _ => inr true
             | None => fun _ => inr true
             end) ;;
  ret (map post_of rows).

(** GET /posts/{post_id} *)
Definition get_post (post_id : Z) : M Post.t :=
  found <- first_post post_id ;;
  match found with
  | None => raise post_not_found
  | Some db_post => ret (post_of db_post)
  end.

(** PUT /posts/{post_id} *)
Definition update_post (post_id : Z) (post : PostCreate.t) : M Post.t :=
  found <- first_post post_id ;;
  match found with
  | None => raise post_not_found
  | Some db_post =>
      let pk := PostDB.id db_post in
      set_title pk (PostCreate.title post) ;;;
      text <- getattr_text post ;;
      set_post_text pk text ;;;
      set_user_id pk (PostCreate.user_id post) ;;;
      commit ;;;
      db_post <- refresh_post pk ;;
      ret (post_of db_post)
  end.

(** PATCH /posts/{post_id}/text *)
Definition patch_post_text (post_id : Z) (text : string) : M Post.t :=
  found <- first_post post_id ;;
  match found with
  | None => raise post_not_found
  | Some db_post =>
      let pk := PostDB.id db_post in
      set_post_text pk text ;;;
      commit ;;;
      db_post <- refresh_post pk ;;
      ret (post_of db_post)
  end.

(** PATCH /posts/{post_id}/likes/increment *)
Definition increment_post_likes (post_id : Z) : M Post.t :=
  found <- first_post post_id ;;
  match found with
  | None => raise post_not_found
  | Some db_post =>
      let pk := PostDB.id db_post in
      set_likes pk (PostDB.likes db_post + 1) ;;;
      commit ;;;
      db_post <- refresh_post pk ;;
      ret (post_of db_post)
  end.

(** PATCH /posts/{post_id}/likes/decrement *)
Definition decrement_post_likes (post_id : Z) : M Post.t :=
  found <- first_post post_id ;;
  match found with
  | None => raise post_not_found
  | Some db_post =>
      let pk := PostDB.id db_post in
      set_likes pk (Z.max 0 (PostDB.likes db_post - 1)) ;;;
      commit ;;;
      db_post <- refresh_post pk ;;
      ret (post_of db_post)
  end.

(** DELETE /posts/{post_id}: the returned object keeps the attributes it
    had when it was loaded. *)
Definition delete_post (post_id : Z) : M Post.t :=
  found <- first_post post_id ;;
  match found with
  | None => raise post_not_found
  | Some db_post =>
      delete_posts (PostDB.id db_post) ;;;
      commit ;;;
      ret (post_of db_post)
  end.

(** ** The service as a transition system *)

(** One constructor per route handler of [main.py]. POST /posts/ has two
    handlers under one name; both are kept, so that what is proved of all
    requests holds whichever of the two serves the route. Of the three
    handlers of GET /users/ the first is the one that serves it. *)
Inductive Request :=
| POST_users (user : UserCreate.t)
| GET_users (name : option string)
| GET_user (user_id : Z)
| PUT_user (user_id : Z) (user : UserCreate.t)
| PATCH_user_name (user_id : Z) (name : string)
| POST_posts (post : PostCreate.t)
| POST_posts_redefined (post : PostCreate.t)
| GET_posts (title : option string)
| GET_post (post_id : Z)
| PUT_post (post_id : Z) (post : PostCreate.t)
| PATCH_post_text (post_id : Z) (text : string)
| PATCH_post_likes_increment (post_id : Z)
| PATCH_post_likes_decrement (post_id : Z)
| DELETE_post (post_id : Z).

Inductive Response :=
| a_user (u : User.t)
| some_users (us : list User.t)
| a_post (p : Post.t)
| some_posts (ps : list Post.t).

Definition respond {A} (wrap : A -> Response) (h : M A) : M Response :=
  a <- h ;; ret (wrap a).

Definition handler (r : Request) : M Response :=
  match r with
  | POST_users user => respond a_user (create_user user)
  | GET_users name => respond some_users (get_users name)
  | GET_user user_id => respond a_user (get_user user_id)
  | PUT_user user_id user => respond a_user (update_user user_id user)
  | PATCH_user_name user_id name => respond a_user (patch_user_name user_id name)
  | POST_posts post => respond a_post (create_post post)
  | POST_posts_redefined post => respond a_post (create_post_redefined post)
  | GET_posts title => respond some_posts (get_posts title)
  | GET_post post_id => respond a_post (get_post post_id)
  | PUT_post post_id post => respond a_post (update_post post_id post)
  | PATCH_post_text post_id text => respond a_post (patch_post_text post_id text)
  | PATCH_post_likes_increment post_id =>
      respond a_post (increment_post_likes post_id)
  | PATCH_post_likes_decrement post_id =>
      respond a_post (decrement_post_likes post_id)
  | DELETE_post post_id => respond a_post (delete_post post_id)
  end.

(** The database after a request. *)
Definition after (r : Request) (db : Database) : Database :=
  snd (serve (handler r) db).

(** The databases the service can be in: the empty one it starts from,
    and whatever a request makes of a reachable one. *)
Inductive reachable : Database -> Prop :=
| reachable_start : reachable empty_db
| reachable_request db r : reachable db -> reachable (after r db).

(** ** Vocabulary of the properties *)

(** The row a lookup by id yields, if any. *)
Definition stored_user (db : Database) (i : Z) : option UserDB.t :=
  find (fun u => UserDB.id u =? i) (users db).

Definition stored_post (db : Database) (i : Z) : option PostDB.t :=
  find (fun p => PostDB.id p =? i) (posts db).

Definition with_likes (p : PostDB.t) (n : Z) : PostDB.t :=
  PostDB.mk (PostDB.id p) (PostDB.title p) (PostDB.post_text p) n
            (PostDB.user_id p).

Definition with_post_text (p : PostDB.t) (text : string) : PostDB.t :=
  PostDB.mk (PostDB.id p) (PostDB.title p) text (PostDB.likes p)
            (PostDB.user_id p).

Definition with_username (u : UserDB.t) (name : string) : UserDB.t :=
  UserDB.mk (UserDB.id u) name (UserDB.is_admin u) (UserDB.image_url u).

(** The row [update_user] writes. *)
Definition rewritten_user (u : UserDB.t) (body : UserCreate.t) : UserDB.t :=
  UserDB.mk (UserDB.id u) (UserCreate.name body) (UserCreate.is_admin body)
            (UserCreate.image_url body).

(** The row the specification's full update of a post would write. *)
Definition rewritten_post (p : PostDB.t) (body : PostCreate.t) : PostDB.t :=
  PostDB.mk (PostDB.id p) (PostCreate.title body) (PostCreate.post_text body)
            (PostDB.likes p) (PostCreate.user_id body).

Definition likes_nonneg (db : Database) : Prop :=
  Forall (fun p => 0 <= PostDB.likes p) (posts db).

(** The requests that look a row up by its id, with the table and the id. *)
Inductive Table := Users | Posts.

Definition lookup_of (r : Request) : option (Table * Z) :=
  match r with
  | GET_user i | PUT_user i _ | PATCH_user_name i _ => Some (Users, i)
  | GET_post i | PUT_post i _ | PATCH_post_text i _
  | PATCH_post_likes_increment i | PATCH_post_likes_decrement i
  | DELETE_post i => Some (Posts, i)
  | _ => None
  end.

Definition has_row (db : Database) (t : Table) (i : Z) : bool :=
  match t with
  | Users => existsb (fun u => UserDB.id u =? i) (users db)
  | Posts => existsb (fun p => PostDB.id p =? i) (posts db)
  end.

(** The response the transport layer sends for the outcome of a handler:
    the status code of an [HTTPException], 500 for any other exception,
    200 for a returned value. *)
Definition status_code_of {A} (outcome : Exception + A) : Z :=
  match outcome with
  | inl (HTTPException code _) => code
  | inl _ => 500
  | inr _ => 200
  end.

Definition changes_likes (r : Request) : bool :=
  match r with
  | PATCH_post_likes_increment _ | PATCH_post_likes_decrement _ => true
  | _ => false
  end.







(** The same request sent [n] times in a row. *)
Definition times (n : nat) (r : Request) (db : Database) : Database :=
  Nat.iter n (after r) db.

(** Primary keys as the schema declares them ([primary_key=True]): no
    two rows of a table share an id, and ids are positive. *)
Definition well_keyed (db : Database) : Prop :=
  NoDup (map UserDB.id (users db))
  /\ NoDup (map PostDB.id (posts db))
  /\ Forall (fun i => 0 < i) (map UserDB.id (users db))
  /\ Forall (fun i => 0 < i) (map PostDB.id (posts db)).

(** The table a request can write to, if it can write at all. The full
    update of a post is not among the writers: its handler never reaches
    its commit. *)
Definition writes_to (r : Request) : option Table :=
  match r with
  | POST_users _ | PUT_user _ _ | PATCH_user_name _ _ => Some Users
  | POST_posts _ | PATCH_post_text _ _ | PATCH_post_likes_increment _
  | PATCH_post_likes_decrement _ | DELETE_post _ => Some Posts
  | GET_users _ | GET_user _ | GET_posts _ | GET_post _
  | POST_posts_redefined _ | PUT_post _ _ => None
  end.

(** The get-by-id request of a table. *)
Definition get_of (t : Table) (i : Z) : Request :=
  match t with
  | Users => GET_user i
  | Posts => GET_post i
  end.

(** ** Auxiliary facts: keys, lookups, rewrites *)

Section Rows.
Context {R : Type} (key : R -> Z).

Definition lookup (i : Z) (rows : list R) : option R :=
  find (fun r => key r =? i) rows.

Lemma lookup_key i rows r : lookup i rows = Some r -> key r = i.
Proof.
  intros H. apply find_some in H. destruct H as [_ H].
  now apply Z.eqb_eq in H.
Qed.

Lemma lookup_In i rows r : lookup i rows = Some r -> In r rows.
Proof. intros H. now apply find_some in H. Qed.

Lemma lookup_None i rows :
  lookup i rows = None <-> (forall r, In r rows -> key r <> i).
Proof.
  split.
  - intros H r Hin E. pose proof (find_none _ _ H r Hin) as F.
    simpl in F. apply Z.eqb_neq in F. contradiction.
  - induction rows as [|r rows IH]; intros H; [reflexivity|].
    unfold lookup. simpl. destruct (Z.eqb_spec (key r) i) as [E|E].
    + exfalso. apply (H r); [now left | exact E].
    + apply IH. intros r' Hin. apply H. now right.
Qed.

Lemma lookup_existsb i rows :
  existsb (fun r => key r =? i) rows = true <-> lookup i rows <> None.
Proof.
  induction rows as [|r rows IH]; simpl.
  - split; [discriminate | intros H; now destruct H].
  - unfold lookup. simpl. destruct (key r =? i); simpl.
    + split; [discriminate | reflexivity].
    + exact IH.
Qed.

Lemma lookup_rewrite i pk f rows :
  (forall r, key (f r) = key r) ->
  lookup i (rewrite_rows key pk f rows)
  = option_map (fun r => if key r =? pk then f r else r) (lookup i rows).
Proof.
  intros Hf. unfold lookup, rewrite_rows.
  induction rows as [|r rows IH]; [reflexivity|]. simpl.
  replace (key (if key r =? pk then f r else r)) with (key r)
    by (destruct (key r =? pk); [now rewrite Hf | reflexivity]).
  destruct (key r =? i); [reflexivity | exact IH].
Qed.

Lemma lookup_rewrite_same i f rows r :
  (forall r, key (f r) = key r) ->
  lookup i rows = Some r ->
  lookup i (rewrite_rows key i f rows) = Some (f r).
Proof.
  intros Hf H. rewrite lookup_rewrite by exact Hf. rewrite H. simpl.
  rewrite (lookup_key _ _ _ H), Z.eqb_refl. reflexivity.
Qed.

Lemma lookup_delete i rows :
  lookup i (filter (fun r => negb (key r =? i)) rows) = None.
Proof.
  apply lookup_None. intros r Hin. apply filter_In in Hin.
  destruct Hin as [_ H]. apply negb_true_iff in H. now apply Z.eqb_neq.
Qed.

Lemma lookup_delete_other i j rows :
  i <> j ->
  lookup j (filter (fun r => negb (key r =? i)) rows) = lookup j rows.
Proof.
  intros Hij. unfold lookup.
  induction rows as [|r rows IH]; [reflexivity|]. simpl.
  destruct (Z.eqb_spec (key r) i) as [E|E]; simpl.
  - destruct (Z.eqb_spec (key r) j) as [E'|E']; [congruence | exact IH].
  - destruct (key r =? j); [reflexivity | exact IH].
Qed.

Lemma fold_max_bounds rows a :
  a <= fold_left Z.max rows a
  /\ forall x, In x rows -> x <= fold_left Z.max rows a.
Proof.
  revert a. induction rows as [|y rows IH]; intros a; simpl.
  - split; [lia | intros x []].
  - destruct (IH (Z.max a y)) as [H1 H2]. split; [lia|].
    intros x [->|Hin]; [lia | now apply H2].
Qed.

Lemma next_id_above ids i : In i ids -> i < next_id ids.
Proof.
  destruct ids as [|a rest]; [intros []|]. unfold next_id.
  destruct (fold_max_bounds rest a) as [H1 H2].
  intros [->|Hin]; [lia | specialize (H2 _ Hin); lia].
Qed.

Lemma next_id_unused rows : lookup (next_id (map key rows)) rows = None.
Proof.
  apply lookup_None. intros r Hin E.
  pose proof (next_id_above (map key rows) (key r) (in_map key _ _ Hin)).
  lia.
Qed.

Lemma lookup_app_new i rows r :
  lookup i rows = None -> key r = i -> lookup i (rows ++ [r]) = Some r.
Proof.
  unfold lookup. intros H E.
  induction rows as [|x rows IH]; simpl in *.
  - now rewrite (proj2 (Z.eqb_eq _ _) E).
  - destruct (key x =? i); [discriminate | now apply IH].
Qed.

Lemma lookup_app i rows r :
  lookup i (rows ++ [r])
  = match lookup i rows with
    | Some x => Some x
    | None => if key r =? i then Some r else None
    end.
Proof.
  unfold lookup. induction rows as [|x rows IH]; simpl; [reflexivity|].
  destruct (key x =? i); [reflexivity | exact IH].
Qed.

End Rows.

(** ** What each handler does to the database *)

Lemma stored_user_lookup db i : stored_user db i = lookup UserDB.id i (users db).
Proof. reflexivity. Qed.

Lemma stored_post_lookup db i : stored_post db i = lookup PostDB.id i (posts db).
Proof. reflexivity. Qed.

Ltac fold_lookups :=
  repeat match goal with
  | |- context [find (fun u => UserDB.id u =? ?i) ?l] =>
      change (find (fun u => UserDB.id u =? i) l) with (lookup UserDB.id i l)
  | |- context [find (fun p => PostDB.id p =? ?i) ?l] =>
      change (find (fun p => PostDB.id p =? i) l) with (lookup PostDB.id i l)
  end.

Ltac run_handler :=
  unfold serve, bind, ret, raise, first_user, first_post, commit,
    refresh_user, refresh_post, getattr_text, set_username, set_is_admin,
    set_image_url, set_title, set_post_text, set_user_id, set_likes,
    update_users, update_posts, delete_posts, add_user, add_post,
    on_working, binding, query_users, query_posts, mkSession; simpl;
  fold_lookups.

Lemma get_user_run db i :
  serve (get_user i) db
  = (match stored_user db i with
     | Some u => inr (user_of u)
     | None => inl (if int64 i then user_not_found else OverflowError)
     end, db).
Proof.
  unfold get_user. run_handler. rewrite stored_user_lookup.
  destruct (lookup UserDB.id i (users db)); [reflexivity|].
  destruct (int64 i); reflexivity.
Qed.

Lemma get_post_run db i :
  serve (get_post i) db
  = (match stored_post db i with
     | Some p => inr (post_of p)
     | None => inl (if int64 i then post_not_found else OverflowError)
     end, db).
Proof.
  unfold get_post. run_handler. rewrite stored_post_lookup.
  destruct (lookup PostDB.id i (posts db)); [reflexivity|].
  destruct (int64 i); reflexivity.
Qed.

Lemma create_user_run db body :
  let u := UserDB.mk (next_id (map UserDB.id (users db)))
             (UserCreate.name body) (UserCreate.is_admin body)
             (UserCreate.image_url body) in
  serve (create_user body) db
  = (inr (user_of u), mkDatabase (users db ++ [u]) (posts db)).
Proof.
  intros u. unfold create_user. run_handler.
  rewrite (lookup_app_new UserDB.id _ (users db) u);
    [reflexivity | apply next_id_unused | reflexivity].
Qed.

Lemma create_post_run db body :
  let p := PostDB.mk (next_id (map PostDB.id (posts db)))
             (PostCreate.title body) (PostCreate.post_text body) 0
             (PostCreate.user_id body) in
  serve (create_post body) db
  = if int64 (PostCreate.user_id body)
    then (inr (post_of p), mkDatabase (users db) (posts db ++ [p]))
    else (inl OverflowError, db).
Proof.
  intros p. unfold create_post. run_handler.
  destruct (int64 (PostCreate.user_id body)); simpl; [|reflexivity].
  fold_lookups.
  rewrite (lookup_app_new PostDB.id _ (posts db) p);
    [reflexivity | apply next_id_unused | reflexivity].
Qed.

Lemma create_post_redefined_run db body :
  serve (create_post_redefined body) db
  = (inl (AttributeError "PostCreate" "text"), db).
Proof. reflexivity. Qed.

Lemma patch_user_name_run db i name u :
  stored_user db i = Some u ->
  serve (patch_user_name i name) db
  = (inr (user_of (with_username u name)),
     mkDatabase (rewrite_rows UserDB.id i (fun v => with_username v name)
                   (users db))
                (posts db)).
Proof.
  intros H. rewrite stored_user_lookup in H.
  unfold patch_user_name. run_handler. rewrite H. simpl. fold_lookups.
  rewrite (lookup_key _ _ _ _ H).
  rewrite (lookup_rewrite_same UserDB.id i _ _ u); auto.
Qed.

Lemma rewrite_rows_compose {R} (key : R -> Z) pk (f g : R -> R) rows :
  (forall r, key (f r) = key r) ->
  rewrite_rows key pk g (rewrite_rows key pk f rows)
  = rewrite_rows key pk (fun r => g (f r)) rows.
Proof.
  intros Hf. unfold rewrite_rows. rewrite map_map. apply map_ext.
  intros r. destruct (Z.eqb_spec (key r) pk) as [E|E].
  - now rewrite Hf, (proj2 (Z.eqb_eq _ _) E).
  - now rewrite (proj2 (Z.eqb_neq _ _) E).
Qed.

Lemma update_user_run db i body u :
  stored_user db i = Some u ->
  serve (update_user i body) db
  = (inr (user_of (rewritten_user u body)),
     mkDatabase (rewrite_rows UserDB.id i (fun v => rewritten_user v body)
                   (users db))
                (posts db)).
Proof.
  intros H. rewrite stored_user_lookup in H.
  unfold update_user. run_handler. rewrite H. simpl. fold_lookups.
  rewrite (lookup_key _ _ _ _ H).
  rewrite !rewrite_rows_compose by reflexivity. simpl.
  rewrite (lookup_rewrite_same UserDB.id i _ _ u); auto.
Qed.

Lemma update_post_run db i body p :
  stored_post db i = Some p ->
  serve (update_post i body) db = (inl (AttributeError "PostCreate" "text"), db).
Proof.
  intros H. rewrite stored_post_lookup in H.
  unfold update_post. run_handler. now rewrite H.
Qed.

Lemma patch_post_text_run db i text p :
  stored_post db i = Some p ->
  serve (patch_post_text i text) db
  = (inr (post_of (with_post_text p text)),
     mkDatabase (users db)
       (rewrite_rows PostDB.id i (fun q => with_post_text q text) (posts db))).
Proof.
  intros H. rewrite stored_post_lookup in H.
  unfold patch_post_text. run_handler. rewrite H. simpl. fold_lookups.
  rewrite (lookup_key _ _ _ _ H).
  rewrite (lookup_rewrite_same PostDB.id i _ _ p); auto.
Qed.

Lemma increment_post_likes_run db i p :
  stored_post db i = Some p ->
  serve (increment_post_likes i) db
  = (inr (post_of (with_likes p (PostDB.likes p + 1))),
     mkDatabase (users db)
       (rewrite_rows PostDB.id i
          (fun q => with_likes q (PostDB.likes p + 1)) (posts db))).
Proof.
  intros H. rewrite stored_post_lookup in H.
  unfold increment_post_likes. run_handler. rewrite H. simpl. fold_lookups.
  rewrite (lookup_key _ _ _ _ H).
  rewrite (lookup_rewrite_same PostDB.id i _ _ p); auto.
Qed.

Lemma decrement_post_likes_run db i p :
  stored_post db i = Some p ->
  serve (decrement_post_likes i) db
  = (inr (post_of (with_likes p (Z.max 0 (PostDB.likes p - 1)))),
     mkDatabase (users db)
       (rewrite_rows PostDB.id i
          (fun q => with_likes q (Z.max 0 (PostDB.likes p - 1))) (posts db))).
Proof.
  intros H. rewrite stored_post_lookup in H.
  unfold decrement_post_likes. run_handler. rewrite H. simpl. fold_lookups.
  rewrite (lookup_key _ _ _ _ H).
  rewrite (lookup_rewrite_same PostDB.id i _ _ p); auto.
Qed.

Lemma delete_post_run db i p :
  stored_post db i = Some p ->
  serve (delete_post i) db
  = (inr (post_of p),
     mkDatabase (users db)
       (filter (fun q => negb (PostDB.id q =? i)) (posts db))).
Proof.
  intros H. rewrite stored_post_lookup in H.
  unfold delete_post. run_handler. rewrite H. simpl.
  now rewrite (lookup_key _ _ _ _ H).
Qed.

(** A lookup that finds no row: 404 for an id that fits 64 bits,
    [OverflowError] for one that does not; nothing is written. *)
Lemma user_absent_run db r i :
  lookup_of r = Some (Users, i) -> stored_user db i = None ->
  serve (handler r) db
  = (inl (if int64 i then user_not_found else OverflowError), db).
Proof.
  intros Hr H. rewrite stored_user_lookup in H.
  destruct r; inversion Hr; subst; unfold handler, respond;
    [unfold get_user | unfold update_user | unfold patch_user_name];
    run_handler; rewrite H; now destruct (int64 i).
Qed.

Lemma post_absent_run db r i :
  lookup_of r = Some (Posts, i) -> stored_post db i = None ->
  serve (handler r) db
  = (inl (if int64 i then post_not_found else OverflowError), db).
Proof.
  intros Hr H. rewrite stored_post_lookup in H.
  destruct r; inversion Hr; subst; unfold handler, respond;
    [ unfold get_post | unfold update_post | unfold patch_post_text
    | unfold increment_post_likes | unfold decrement_post_likes
    | unfold delete_post ];
    run_handler; rewrite H; now destruct (int64 i).
Qed.

Lemma user_not_found_run db r i :
  lookup_of r = Some (Users, i) -> int64 i = true -> stored_user db i = None ->
  serve (handler r) db = (inl user_not_found, db).
Proof. intros Hr Hi H. now rewrite (user_absent_run db r i Hr H), Hi. Qed.

Lemma post_not_found_run db r i :
  lookup_of r = Some (Posts, i) -> int64 i = true -> stored_post db i = None ->
  serve (handler r) db = (inl post_not_found, db).
Proof. intros Hr Hi H. now rewrite (post_absent_run db r i Hr H), Hi. Qed.

Lemma serve_respond {A} (wrap : A -> Response) (h : M A) db :
  serve (respond wrap h) db
  = (match fst (serve h db) with inl e => inl e | inr a => inr (wrap a) end,
     snd (serve h db)).
Proof.
  unfold serve, respond, bind, ret.
  destruct (h (mkSession db db)) as [[e|a] s]; reflexivity.
Qed.

(** Queries: a criterion that never fails selects as [filter] does. *)
Lemma select_where_total {R} (f : R -> bool) (rows : list R) :
  select_where (fun r => inr (f r)) rows = inr (filter f rows).
Proof.
  induction rows as [|r rows IH]; simpl; [reflexivity|].
  rewrite IH. reflexivity.
Qed.


Lemma select_where_failing {R} (e : Exception) (r : R) (rows : list R) :
  select_where (fun _ => inl e) (r :: rows) = inl e.
Proof. reflexivity. Qed.

Lemma get_users_run db name :
  serve (get_users name) db
  = (match select_where
             (match name with
              | Some n => if truthy name
                          then fun u => contains (UserDB.username u) n
                          else fun _ => inr true
              | None => fun _ => inr true
              end) (users db)
     with
     | inl e => inl e
     | inr rows => inr (map user_of rows)
     end, db).
Proof.
  unfold get_users. run_handler.
  destruct (select_where _ (users db)); reflexivity.
Qed.

Lemma get_posts_run db title :
  serve (get_posts title) db
  = (match select_where
             (match title with
              | Some t => if truthy title
                          then fun p => contains (PostDB.title p) t
                          else fun _ => inr true
              | None => fun _ => inr true
              end) (posts db)
     with
     | inl e => inl e
     | inr rows => inr (map post_of rows)
     end, db).
Proof.
  unfold get_posts. run_handler.
  destruct (select_where _ (posts db)); reflexivity.
Qed.



(** ** The database after each request *)

Lemma after_respond {A} (wrap : A -> Response) (h : M A) db :
  snd (serve (respond wrap h) db) = snd (serve h db).
Proof. now rewrite serve_respond. Qed.

Lemma after_read_only db r :
  match r with
  | GET_users _ | GET_user _ | GET_posts _ | GET_post _
  | POST_posts_redefined _ | PUT_post _ _ => after r db = db
  | _ => True
  end.
Proof.
  destruct r; try exact I; unfold after, handler; rewrite after_respond.
  - now rewrite get_users_run.
  - now rewrite get_user_run.
  - now rewrite create_post_redefined_run.
  - now rewrite get_posts_run.
  - now rewrite get_post_run.
  - destruct (stored_post db post_id) as [p|] eqn:H.
    + now rewrite (update_post_run _ _ _ _ H).
    + unfold update_post. run_handler. rewrite stored_post_lookup in H.
      rewrite H. now destruct (int64 post_id).
Qed.

Lemma after_absent db r t i :
  lookup_of r = Some (t, i) -> has_row db t i = false -> after r db = db.
Proof.
  intros Hr H. unfold after. destruct t; simpl in H.
  - rewrite (user_absent_run db r i Hr); [reflexivity|].
    rewrite stored_user_lookup.
    destruct (lookup UserDB.id i (users db)) eqn:E; [|reflexivity].
    assert (existsb (fun u => UserDB.id u =? i) (users db) = true)
      by (apply lookup_existsb; congruence).
    congruence.
  - rewrite (post_absent_run db r i Hr); [reflexivity|].
    rewrite stored_post_lookup.
    destruct (lookup PostDB.id i (posts db)) eqn:E; [|reflexivity].
    assert (existsb (fun p => PostDB.id p =? i) (posts db) = true)
      by (apply lookup_existsb; congruence).
    congruence.
Qed.

Lemma has_row_users db i :
  has_row db Users i = false <-> stored_user db i = None.
Proof.
  simpl. rewrite stored_user_lookup.
  pose proof (lookup_existsb UserDB.id i (users db)) as L.
  destruct (existsb _ _); destruct (lookup UserDB.id i (users db));
    intuition congruence.
Qed.

Lemma has_row_posts db i :
  has_row db Posts i = false <-> stored_post db i = None.
Proof.
  simpl. rewrite stored_post_lookup.
  pose proof (lookup_existsb PostDB.id i (posts db)) as L.
  destruct (existsb _ _); destruct (lookup PostDB.id i (posts db));
    intuition congruence.
Qed.

Lemma after_POST_users db body :
  after (POST_users body) db
  = mkDatabase
      (users db ++ [UserDB.mk (next_id (map UserDB.id (users db)))
                      (UserCreate.name body) (UserCreate.is_admin body)
                      (UserCreate.image_url body)])
      (posts db).
Proof. unfold after, handler. now rewrite after_respond, create_user_run. Qed.

Lemma after_POST_posts db body :
  int64 (PostCreate.user_id body) = true ->
  after (POST_posts body) db
  = mkDatabase (users db)
      (posts db ++ [PostDB.mk (next_id (map PostDB.id (posts db)))
                      (PostCreate.title body) (PostCreate.post_text body) 0
                      (PostCreate.user_id body)]).
Proof.
  intros H. unfold after, handler.
  now rewrite after_respond, create_post_run, H.
Qed.

Lemma after_POST_posts_overflow db body :
  int64 (PostCreate.user_id body) = false -> after (POST_posts body) db = db.
Proof.
  intros H. unfold after, handler.
  now rewrite after_respond, create_post_run, H.
Qed.

Lemma after_PUT_user db i body u :
  stored_user db i = Some u ->
  after (PUT_user i body) db
  = mkDatabase (rewrite_rows UserDB.id i (fun v => rewritten_user v body)
                  (users db)) (posts db).
Proof.
  intros H. unfold after, handler.
  now rewrite after_respond, (update_user_run _ _ _ _ H).
Qed.

Lemma after_PATCH_user_name db i name u :
  stored_user db i = Some u ->
  after (PATCH_user_name i name) db
  = mkDatabase (rewrite_rows UserDB.id i (fun v => with_username v name)
                  (users db)) (posts db).
Proof.
  intros H. unfold after, handler.
  now rewrite after_respond, (patch_user_name_run _ _ _ _ H).
Qed.

Lemma after_PATCH_post_text db i text p :
  stored_post db i = Some p ->
  after (PATCH_post_text i text) db
  = mkDatabase (users db)
      (rewrite_rows PostDB.id i (fun q => with_post_text q text) (posts db)).
Proof.
  intros H. unfold after, handler.
  now rewrite after_respond, (patch_post_text_run _ _ _ _ H).
Qed.

Lemma after_increment db i p :
  stored_post db i = Some p ->
  after (PATCH_post_likes_increment i) db
  = mkDatabase (users db)
      (rewrite_rows PostDB.id i
         (fun q => with_likes q (PostDB.likes p + 1)) (posts db)).
Proof.
  intros H. unfold after, handler.
  now rewrite after_respond, (increment_post_likes_run _ _ _ H).
Qed.

Lemma after_decrement db i p :
  stored_post db i = Some p ->
  after (PATCH_post_likes_decrement i) db
  = mkDatabase (users db)
      (rewrite_rows PostDB.id i
         (fun q => with_likes q (Z.max 0 (PostDB.likes p - 1))) (posts db)).
Proof.
  intros H. unfold after, handler.
  now rewrite after_respond, (decrement_post_likes_run _ _ _ H).
Qed.

Lemma after_DELETE_post db i p :
  stored_post db i = Some p ->
  after (DELETE_post i) db
  = mkDatabase (users db)
      (filter (fun q => negb (PostDB.id q =? i)) (posts db)).
Proof.
  intros H. unfold after, handler.
  now rewrite after_respond, (delete_post_run _ _ _ H).
Qed.

Lemma stored_after_increment db i p :
  stored_post db i = Some p ->
  stored_post (after (PATCH_post_likes_increment i) db) i
  = Some (with_likes p (PostDB.likes p + 1)).
Proof.
  intros H. rewrite (after_increment _ _ _ H), stored_post_lookup. simpl.
  now apply (lookup_rewrite_same PostDB.id i
               (fun q => with_likes q (PostDB.likes p + 1))).
Qed.

Lemma stored_after_decrement db i p :
  stored_post db i = Some p ->
  stored_post (after (PATCH_post_likes_decrement i) db) i
  = Some (with_likes p (Z.max 0 (PostDB.likes p - 1))).
Proof.
  intros H. rewrite (after_decrement _ _ _ H), stored_post_lookup. simpl.
  now apply (lookup_rewrite_same PostDB.id i
               (fun q => with_likes q (Z.max 0 (PostDB.likes p - 1)))).
Qed.

Lemma Forall_rewrite_rows {R} (key : R -> Z) (P : R -> Prop) pk f rows :
  (forall r, P r -> P (f r)) ->
  Forall P rows -> Forall P (rewrite_rows key pk f rows).
Proof.
  intros Hf H. unfold rewrite_rows. apply Forall_map.
  eapply Forall_impl; [|exact H]. intros r Hr. simpl.
  destruct (key r =? pk); auto.
Qed.

(** Each request keeps the like counts non-negative. *)
Lemma likes_nonneg_after db r : likes_nonneg db -> likes_nonneg (after r db).
Proof.
  intros H. pose proof (after_read_only db r) as RO.
  destruct r; try (rewrite RO; exact H); clear RO.
  - now rewrite after_POST_users.
  - destruct (stored_user db user_id) as [u|] eqn:E.
    + now rewrite (after_PUT_user _ _ _ _ E).
    + rewrite (after_absent db _ Users user_id); auto. now apply has_row_users.
  - destruct (stored_user db user_id) as [u|] eqn:E.
    + now rewrite (after_PATCH_user_name _ _ _ _ E).
    + rewrite (after_absent db _ Users user_id); auto. now apply has_row_users.
  - destruct (int64 (PostCreate.user_id post)) eqn:I;
      [|now rewrite after_POST_posts_overflow].
    rewrite after_POST_posts by exact I. unfold likes_nonneg. simpl.
    apply Forall_app. split; [exact H|]. constructor; [simpl; lia | constructor].
  - destruct (stored_post db post_id) as [p|] eqn:E.
    + rewrite (after_PATCH_post_text _ _ _ _ E).
      apply Forall_rewrite_rows; [|exact H]. now intros q.
    + rewrite (after_absent db _ Posts post_id); auto. now apply has_row_posts.
  - destruct (stored_post db post_id) as [p|] eqn:E.
    + rewrite (after_increment _ _ _ E).
      apply Forall_rewrite_rows; [|exact H]. intros q _. simpl.
      pose proof (proj1 (Forall_forall _ _) H p
                    (lookup_In PostDB.id _ _ _ E)) as Hp.
      simpl in Hp. lia.
    + rewrite (after_absent db _ Posts post_id); auto. now apply has_row_posts.
  - destruct (stored_post db post_id) as [p|] eqn:E.
    + rewrite (after_decrement _ _ _ E).
      apply Forall_rewrite_rows; [|exact H]. intros q _. simpl. lia.
    + rewrite (after_absent db _ Posts post_id); auto. now apply has_row_posts.
  - destruct (stored_post db post_id) as [p|] eqn:E.
    + rewrite (after_DELETE_post _ _ _ E). unfold likes_nonneg. simpl.
      apply Forall_forall. intros q Hq. apply filter_In in Hq.
      exact (proj1 (Forall_forall _ _) H q (proj1 Hq)).
    + rewrite (after_absent db _ Posts post_id); auto. now apply has_row_posts.
Qed.

Lemma reachable_likes_nonneg db : reachable db -> likes_nonneg db.
Proof.
  induction 1 as [|db r _ IH].
  - constructor.
  - now apply likes_nonneg_after.
Qed.

(** ** Repeated like requests *)

Lemma with_likes_twice p a b : with_likes (with_likes p a) b = with_likes p b.
Proof. reflexivity. Qed.

Lemma times_increment db i p (n : nat) :
  stored_post db i = Some p ->
  stored_post (times n (PATCH_post_likes_increment i) db) i
  = Some (with_likes p (PostDB.likes p + Z.of_nat n)).
Proof.
  intros H. induction n as [|n IH].
  - simpl. rewrite H. destruct p. unfold with_likes. simpl.
    now rewrite Z.add_0_r.
  - unfold times in *. rewrite Nat.iter_succ.
    rewrite (stored_after_increment _ _ _ IH), with_likes_twice. simpl.
    do 2 f_equal. lia.
Qed.

Lemma times_decrement db i p (m : nat) :
  stored_post db i = Some p -> Z.of_nat m <= PostDB.likes p ->
  stored_post (times m (PATCH_post_likes_decrement i) db) i
  = Some (with_likes p (PostDB.likes p - Z.of_nat m)).
Proof.
  intros H. induction m as [|m IH]; intros Hm.
  - simpl. rewrite H. destruct p. unfold with_likes. simpl.
    now rewrite Z.sub_0_r.
  - unfold times in *. rewrite Nat.iter_succ.
    rewrite (stored_after_decrement _ _ _ (IH ltac:(lia))), with_likes_twice.
    simpl. do 2 f_equal. lia.
Qed.

(** ** Outcomes when the row exists *)

Lemma serve_handler_found_post db r i p :
  lookup_of r = Some (Posts, i) -> stored_post db i = Some p ->
  (exists a, fst (serve (handler r) db) = inr a)
  \/ serve (handler r) db = (inl (AttributeError "PostCreate" "text"), db).
Proof.
  intros Hr H.
  destruct r; inversion Hr; subst; unfold handler; rewrite serve_respond.
  - left. rewrite get_post_run, H. simpl. eauto.
  - right. now rewrite (update_post_run _ _ _ _ H).
  - left. rewrite (patch_post_text_run _ _ _ _ H). simpl. eauto.
  - left. rewrite (increment_post_likes_run _ _ _ H). simpl. eauto.
  - left. rewrite (decrement_post_likes_run _ _ _ H). simpl. eauto.
  - left. rewrite (delete_post_run _ _ _ H). simpl. eauto.
Qed.

Lemma serve_handler_found_user db r i u :
  lookup_of r = Some (Users, i) -> stored_user db i = Some u ->
  exists a, fst (serve (handler r) db) = inr a.
Proof.
  intros Hr H.
  destruct r; inversion Hr; subst; unfold handler; rewrite serve_respond.
  - rewrite get_user_run, H. simpl. eauto.
  - rewrite (update_user_run _ _ _ _ H). simpl. eauto.
  - rewrite (patch_user_name_run _ _ _ _ H). simpl. eauto.
Qed.

(** ** Row-by-row comparison of a table before and after *)

Lemma Forall2_rewrite_rows {R} (key : R -> Z) (Q : R -> R -> Prop) pk f rows :
  (forall r, key r <> pk -> Q r r) ->
  (forall r, key r = pk -> Q r (f r)) ->
  Forall2 Q rows (rewrite_rows key pk f rows).
Proof.
  intros Hrefl Hf. induction rows as [|r rows IH]; simpl; constructor.
  - destruct (Z.eqb_spec (key r) pk); auto.
  - exact IH.
Qed.

(** ** Literal containment of byte strings *)

Lemma is_substring_unfold x s :
  is_substring x s
  = is_prefix x s
    || match s with
       | EmptyString => false
       | String _ s' => is_substring x s'
       end.
Proof. destruct s; reflexivity. Qed.

Lemma is_prefix_iff x s :
  is_prefix x s = true <-> exists suffix, s = (x ++ suffix)%string.
Proof.
  revert s. induction x as [|a x IH]; intros s; simpl.
  - split; [intros _; now exists s | reflexivity].
  - destruct s as [|b s].
    + split; [discriminate | intros [t Ht]; discriminate].
    + rewrite andb_true_iff, IH. split.
      * intros [E [t ->]]. apply Ascii.eqb_eq in E. subst. now exists t.
      * intros [t Ht]. inversion Ht; subst.
        split; [apply Ascii.eqb_refl | now exists t].
Qed.

(** [is_substring] says what it should: [x] lies somewhere inside [s]. *)
Lemma is_substring_iff x s :
  is_substring x s = true
  <-> exists before after_x, s = (before ++ x ++ after_x)%string.
Proof.
  induction s as [|c s IH]; rewrite is_substring_unfold, orb_true_iff.
  - rewrite is_prefix_iff. split.
    + intros [[t Ht]|F]; [now exists EmptyString, t | discriminate].
    + intros [b [t Ht]]. left. destruct b; [now exists t | discriminate].
  - rewrite is_prefix_iff, IH. split.
    + intros [[t Ht]|[b [t Ht]]].
      * now exists EmptyString, t.
      * exists (String c b), t. simpl. now rewrite Ht.
    + intros [b [t Ht]]. destruct b as [|c' b].
      * left. now exists t.
      * right. simpl in Ht. inversion Ht. now exists b, t.
Qed.

(** ** LIKE against literal containment *)





Lemma fold_case_percent c : (fold_case c =? 37)%N = (c =? 37)%N.
Proof.
  unfold fold_case.
  destruct (N.leb_spec 65 c); destruct (N.leb_spec c 90); simpl;
    try reflexivity.
  destruct (N.eqb_spec (c + 32) 37); destruct (N.eqb_spec c 37);
    try reflexivity; lia.
Qed.

Lemma fold_case_underscore c : (fold_case c =? 95)%N = (c =? 95)%N.
Proof.
  unfold fold_case.
  destruct (N.leb_spec 65 c); destruct (N.leb_spec c 90); simpl;
    try reflexivity.
  destruct (N.eqb_spec (c + 32) 95); destruct (N.eqb_spec c 95);
    try reflexivity; lia.
Qed.

Lemma fold_case_twice c : fold_case (fold_case c) = fold_case c.
Proof.
  unfold fold_case.
  destruct (N.leb_spec 65 c); destruct (N.leb_spec c 90); simpl;
    try (destruct (N.leb_spec 65 c); destruct (N.leb_spec c 90); simpl;
         try reflexivity; lia).
  destruct (N.leb_spec 65 (c + 32)); destruct (N.leb_spec (c + 32) 90);
    simpl; try reflexivity; lia.
Qed.





Lemma like_fold_case_pattern pattern s :
  like (map fold_case pattern) s = like pattern s.
Proof.
  revert s. induction pattern as [|c rest IH]; intros s; [reflexivity|].
  simpl. rewrite fold_case_percent, fold_case_underscore, fold_case_twice.
  destruct (c =? 37)%N.
  - induction s as [|d s IHs]; [now rewrite IH|].
    rewrite IH. f_equal. exact IHs.
  - destruct s as [|d s]; [reflexivity|]. now rewrite IH.
Qed.

(** ** Texts as SQLite reads them *)

Lemma utf8_close_high c : (128 <= utf8_close c)%N.
Proof.
  unfold utf8_close. destruct (N.ltb_spec c 0x80) as [L|L]; simpl; [lia|].
  destruct (_ || _); lia.
Qed.


Lemma fold_case_high c : (128 <= c)%N -> fold_case c = c.
Proof.
  intros H. unfold fold_case.
  destruct (N.leb_spec 65 c); destruct (N.leb_spec c 90); simpl;
    try reflexivity; lia.
Qed.










(** ** Letter case and ASCII texts *)

Lemma lower_continuation b :
  is_continuation (N_of_ascii (lower b)) = is_continuation (N_of_ascii b).
Proof. destruct b as [[] [] [] [] [] [] [] []]; reflexivity. Qed.

Lemma lower_lead b :
  (0xC0 <=? N_of_ascii (lower b))%N = (0xC0 <=? N_of_ascii b)%N.
Proof. destruct b as [[] [] [] [] [] [] [] []]; reflexivity. Qed.

Lemma lower_of_continuation b :
  is_continuation (N_of_ascii b) = true -> lower b = b.
Proof.
  destruct b as [[] [] [] [] [] [] [] []]; intros H;
    try reflexivity; discriminate.
Qed.

Lemma lower_of_lead b : (0xC0 <=? N_of_ascii b)%N = true -> lower b = b.
Proof.
  destruct b as [[] [] [] [] [] [] [] []]; intros H;
    try reflexivity; discriminate.
Qed.

Lemma fold_case_continuation b :
  is_continuation (N_of_ascii b) = true ->
  fold_case (N_of_ascii b) = N_of_ascii b.
Proof.
  destruct b as [[] [] [] [] [] [] [] []]; intros H;
    try reflexivity; discriminate.
Qed.

Lemma lower_code b : N_of_ascii (lower b) = fold_case (N_of_ascii b).
Proof. destruct b as [[] [] [] [] [] [] [] []]; reflexivity. Qed.

Lemma lower_nul b : Ascii.eqb (lower b) zero = Ascii.eqb b zero.
Proof. destruct b as [[] [] [] [] [] [] [] []]; reflexivity. Qed.

Lemma fold_case_close c : fold_case (utf8_close c) = utf8_close c.
Proof. apply fold_case_high, utf8_close_high. Qed.

Lemma utf8_from_lowercase open s :
  utf8_from open (lowercase s) = map fold_case (utf8_from open s).
Proof.
  revert open. induction s as [|b s IH]; intros open.
  - destruct open; simpl; [now rewrite fold_case_close | reflexivity].
  - cbn [lowercase utf8_from]. rewrite lower_continuation, lower_lead.
    destruct open; destruct (is_continuation (N_of_ascii b)) eqn:C;
      destruct (0xC0 <=? N_of_ascii b)%N eqn:D; cbn [map];
      rewrite ?(lower_of_continuation _ C), ?(lower_of_lead _ D), ?IH,
        ?lower_code, ?fold_case_close, ?(fold_case_continuation _ C);
      reflexivity.
Qed.

Lemma c_string_lowercase s : c_string (lowercase s) = lowercase (c_string s).
Proof.
  induction s as [|b s IH]; [reflexivity|]. cbn [lowercase c_string].
  rewrite lower_nul. destruct (Ascii.eqb b zero); [reflexivity|].
  cbn [lowercase]. now rewrite IH.
Qed.

Lemma lowercase_length s : String.length (lowercase s) = String.length s.
Proof. induction s as [|b s IH]; simpl; [reflexivity | now rewrite IH]. Qed.

Lemma lowercase_app x y :
  lowercase (x ++ y) = (lowercase x ++ lowercase y)%string.
Proof. induction x as [|c x IH]; simpl; [reflexivity | now rewrite IH]. Qed.

(** The filter in lower case is the same filter to LIKE. *)
Lemma contains_lowercase_filter column x :
  contains column (lowercase x) = contains column x.
Proof.
  unfold contains, like_operator.
  change ("%" ++ lowercase x ++ "%")%string
    with (lowercase "%" ++ lowercase x ++ lowercase "%")%string.
  rewrite <- !lowercase_app, lowercase_length.
  destruct (like_pattern_limit <? _)%N; [reflexivity|].
  unfold characters.
  now rewrite c_string_lowercase, utf8_from_lowercase, like_fold_case_pattern.
Qed.







(** ** Filtered queries *)





(** ** The properties of the specification *)

(** C1. In every database the service can reach, every stored post has a
    like count of at least 0, and so has every stored post after any
    further request (create, full update, text patch, like increment,
    like decrement and delete among them); a post comes out of creation
    with a like count of 0, and creation succeeds whenever the owning
    user id of the body fits 64 bits. *)
Theorem likes_never_negative db r :
  reachable db ->
  likes_nonneg db
  /\ likes_nonneg (after r db)
  /\ forall body,
       (forall created,
           fst (serve (create_post body) db) = inr created ->
           Post.likes created = 0
           /\ option_map PostDB.likes
                (stored_post (after (POST_posts body) db) (Post.id created))
              = Some 0)
       /\ (int64 (PostCreate.user_id body) = true ->
           exists created, fst (serve (create_post body) db) = inr created).
Proof.
  intros H. pose proof (reachable_likes_nonneg db H) as Inv.
  split; [exact Inv|]. split; [now apply likes_nonneg_after|].
  intros body. rewrite create_post_run.
  destruct (int64 (PostCreate.user_id body)) eqn:I.
  - split; [|intros _; eexists; reflexivity].
    intros created E. simpl in E. inversion E; subst created. simpl.
    split; [reflexivity|].
    rewrite after_POST_posts by exact I. rewrite stored_post_lookup. simpl.
    rewrite (lookup_app_new PostDB.id);
      [reflexivity | apply next_id_unused | reflexivity].
  - split; [intros created E; discriminate | discriminate].
Qed.

Lemma likes_never_negative_witness :
  let db := after (PATCH_post_likes_decrement 1)
              (after (POST_posts (PostCreate.mk "title" "text" 1)) empty_db) in
  reachable db
  /\ likes_nonneg (after (PATCH_post_likes_decrement 1) db).
Proof.
  assert (R : reachable
                (after (PATCH_post_likes_decrement 1)
                   (after (POST_posts (PostCreate.mk "title" "text" 1))
                      empty_db)))
    by (do 2 apply reachable_request; apply reachable_start).
  split; [exact R|].
  exact (proj1 (proj2 (likes_never_negative _ (PATCH_post_likes_decrement 1) R))).
Defined.

(** C2. PUT /posts/{id} on an absent id that fits 64 bits fails with
    NotFound. On an existing id the handler stops at [post.text], an
    attribute the request body does not have: the request ends in an
    unhandled [AttributeError], no post is returned, and the stored
    title, body text and owning user id stay as they were instead of
    being replaced. *)
Theorem update_post_outcome db i body :
  (int64 i = true -> stored_post db i = None ->
   serve (update_post i body) db = (inl post_not_found, db))
  /\ (forall p,
        stored_post db i = Some p ->
        serve (update_post i body) db
        = (inl (AttributeError "PostCreate" "text"), db)
        /\ stored_post (after (PUT_post i body) db) i = Some p
        /\ (rewritten_post p body <> p ->
            stored_post (after (PUT_post i body) db) i
            <> Some (rewritten_post p body))).
Proof.
  split.
  - intros Hi H. rewrite stored_post_lookup in H.
    unfold update_post. run_handler. now rewrite H, Hi.
  - intros p H. pose proof (after_read_only db (PUT_post i body)) as RO.
    simpl in RO. rewrite RO, (update_post_run _ _ _ _ H).
    split; [reflexivity|]. split; [exact H|]. congruence.
Qed.

Lemma update_post_outcome_witness :
  let db := mkDatabase [] [PostDB.mk 1 "old title" "old text" 3 1] in
  let body := PostCreate.mk "new title" "new text" 2 in
  serve (update_post 1 body) db
  = (inl (AttributeError "PostCreate" "text"), db)
  /\ stored_post (after (PUT_post 1 body) db) 1
     = Some (PostDB.mk 1 "old title" "old text" 3 1)
  /\ serve (update_post 2 body) db
     = (inl (HTTPException 404 "Post not found"), db).
Proof.
  intros db body.
  destruct (proj2 (update_post_outcome db 1 body)
              (PostDB.mk 1 "old title" "old text" 3 1) eq_refl)
    as [H1 [H2 _]].
  split; [exact H1 | split; [exact H2|]].
  exact (proj1 (update_post_outcome db 2 body) eq_refl eq_refl).
Defined.

(** C3. Decrementing the likes of an existing post sets its like count to
    max(0, likes - 1): the returned post and the stored row both carry
    that count, it is never negative, and a like count of 0 stays 0. *)
Theorem decrement_post_likes_clamps db i p :
  stored_post db i = Some p ->
  let n := Z.max 0 (PostDB.likes p - 1) in
  fst (serve (decrement_post_likes i) db) = inr (post_of (with_likes p n))
  /\ stored_post (after (PATCH_post_likes_decrement i) db) i
     = Some (with_likes p n)
  /\ 0 <= n
  /\ (PostDB.likes p = 0 -> n = 0).
Proof.
  intros H n. rewrite (decrement_post_likes_run _ _ _ H).
  rewrite (stored_after_decrement _ _ _ H). subst n.
  repeat split; try reflexivity; lia.
Qed.

Lemma decrement_post_likes_clamps_witness :
  let db := mkDatabase [] [PostDB.mk 1 "title" "text" 0 1] in
  fst (serve (decrement_post_likes 1) db)
  = inr (Post.mk "title" "text" 1 1 0).
Proof.
  intros db.
  exact (proj1 (decrement_post_likes_clamps db 1
                  (PostDB.mk 1 "title" "text" 0 1) eq_refl)).
Defined.

(** C4. On a post whose like count is 0, N increments followed by M
    decrements with M <= N leave a like count of exactly N - M, in the
    stored row and in what a get-by-id then returns. *)
Theorem increments_then_decrements db i p (N M : nat) :
  stored_post db i = Some p ->
  PostDB.likes p = 0 ->
  (M <= N)%nat ->
  let db' := times M (PATCH_post_likes_decrement i)
               (times N (PATCH_post_likes_increment i) db) in
  stored_post db' i = Some (with_likes p (Z.of_nat N - Z.of_nat M))
  /\ fst (serve (get_post i) db')
     = inr (post_of (with_likes p (Z.of_nat N - Z.of_nat M))).
Proof.
  intros H H0 HMN db'.
  assert (E : stored_post db' i
              = Some (with_likes p (Z.of_nat N - Z.of_nat M))).
  { subst db'.
    pose proof (times_increment db i p N H) as HN.
    rewrite (times_decrement _ i _ M HN) by (simpl; lia).
    rewrite with_likes_twice. simpl. do 2 f_equal. lia. }
  split; [exact E|]. now rewrite get_post_run, E.
Qed.

Lemma increments_then_decrements_witness :
  let db := mkDatabase [] [PostDB.mk 1 "title" "text" 0 1] in
  stored_post
    (times 2 (PATCH_post_likes_decrement 1)
       (times 5 (PATCH_post_likes_increment 1) db)) 1
  = Some (PostDB.mk 1 "title" "text" 3 1).
Proof.
  intros db.
  exact (proj1 (increments_then_decrements db 1
                  (PostDB.mk 1 "title" "text" 0 1) 5 2 eq_refl eq_refl
                  ltac:(lia))).
Defined.

(** C5, as the specification words it, fails: the delete of an absent id
    that does not fit 64 bits ends in [OverflowError], not in NotFound. *)
Lemma delete_absent_id_counterexample :
  stored_post empty_db (2 ^ 63) = None
  /\ serve (delete_post (2 ^ 63)) empty_db = (inl OverflowError, empty_db)
  /\ fst (serve (delete_post (2 ^ 63)) empty_db) <> inl post_not_found.
Proof. split; [reflexivity | split; [reflexivity | discriminate]]. Qed.

(** C5, amended. For an id that fits 64 bits: deleting an existing post
    removes its row and returns the row as it was before the deletion;
    deleting an absent id fails with NotFound and changes nothing;
    either way a get-by-id for that id then fails with NotFound, and the
    rows of other ids are kept. For an absent id that does not fit 64
    bits the delete ends in [OverflowError] and changes nothing. *)
Theorem delete_post_removes_row db i :
  (int64 i = true ->
   serve (delete_post i) db
   = match stored_post db i with
     | Some p =>
         (inr (post_of p),
          mkDatabase (users db)
            (filter (fun q => negb (PostDB.id q =? i)) (posts db)))
     | None => (inl post_not_found, db)
     end
   /\ stored_post (after (DELETE_post i) db) i = None
   /\ fst (serve (get_post i) (after (DELETE_post i) db)) = inl post_not_found
   /\ forall j, j <> i ->
        stored_post (after (DELETE_post i) db) j = stored_post db j)
  /\ (int64 i = false -> stored_post db i = None ->
      serve (delete_post i) db = (inl OverflowError, db)).
Proof.
  assert (Absent : stored_post db i = None ->
                   serve (delete_post i) db
                   = (inl (if int64 i then post_not_found else OverflowError),
                      db)).
  { intros H.
    pose proof (post_absent_run db (DELETE_post i) i eq_refl H) as F.
    unfold handler in F. rewrite serve_respond in F.
    destruct (serve (delete_post i) db) as [[e|a] d]; simpl in F;
      [now inversion F | discriminate]. }
  split.
  - intros Hi. destruct (stored_post db i) as [p|] eqn:H.
    + rewrite (delete_post_run _ _ _ H), (after_DELETE_post _ _ _ H).
      assert (E : stored_post
                    (mkDatabase (users db)
                       (filter (fun q => negb (PostDB.id q =? i)) (posts db)))
                    i = None) by apply (lookup_delete PostDB.id).
      split; [reflexivity|]. split; [exact E|].
      split; [now rewrite get_post_run, E, Hi|].
      intros j Hj. apply (lookup_delete_other PostDB.id). congruence.
    + assert (A : after (DELETE_post i) db = db)
        by (apply (after_absent db _ Posts i); [reflexivity
                                               | now apply has_row_posts]).
      rewrite A. split; [now rewrite (Absent eq_refl), Hi|].
      split; [exact H|].
      split; [now rewrite get_post_run, H, Hi | reflexivity].
  - intros Hi H. now rewrite (Absent H), Hi.
Qed.

Lemma delete_post_removes_row_witness :
  let db := mkDatabase [] [PostDB.mk 1 "a" "x" 2 1; PostDB.mk 2 "b" "y" 0 1] in
  serve (delete_post 1) db
  = (inr (Post.mk "a" "x" 1 1 2), mkDatabase [] [PostDB.mk 2 "b" "y" 0 1])
  /\ stored_post (after (DELETE_post 1) db) 2
     = Some (PostDB.mk 2 "b" "y" 0 1).
Proof.
  intros db.
  destruct (proj1 (delete_post_removes_row db 1) eq_refl) as [H1 [_ [_ H4]]].
  split; [exact H1 | exact (H4 2 ltac:(discriminate))].
Defined.

(** C6, as the specification words it, fails: no user has the id 2^63,
    yet the get-by-id answers 500, not 404. *)
Lemma not_found_counterexample :
  has_row empty_db Users (2 ^ 63) = false
  /\ serve (handler (GET_user (2 ^ 63))) empty_db
     = (inl OverflowError, empty_db)
  /\ status_code_of (fst (serve (handler (GET_user (2 ^ 63))) empty_db)) = 500.
Proof. split; [reflexivity | split; reflexivity]. Qed.

(** C6, amended. A request that looks a user or a post up by an id that
    fits 64 bits (get, full update, patch, like increment, like
    decrement, delete) answers 404 exactly when no row has that id; the
    exception is then the handler's NotFound and the database is left as
    it was. With an id that does not fit 64 bits, which no row has, the
    lookup ends in [OverflowError] and the database is left as it was.
    No such request raises an HTTP error of another status than 404, and
    one that fails for whatever reason leaves the database as it was. *)
Theorem not_found_exactly_when_absent db r t i :
  lookup_of r = Some (t, i) ->
  (int64 i = true ->
   (status_code_of (fst (serve (handler r) db)) = 404
    <-> has_row db t i = false)
   /\ (has_row db t i = false ->
       serve (handler r) db
       = (inl (match t with
               | Users => user_not_found
               | Posts => post_not_found
               end), db)))
  /\ (int64 i = false -> has_row db t i = false ->
      serve (handler r) db = (inl OverflowError, db))
  /\ (forall code detail,
        fst (serve (handler r) db) = inl (HTTPException code detail) ->
        code = 404)
  /\ (forall e, fst (serve (handler r) db) = inl e -> after r db = db).
Proof.
  intros Hr.
  assert (Absent : has_row db t i = false ->
                   serve (handler r) db
                   = (inl (if int64 i
                           then match t with
                                | Users => user_not_found
                                | Posts => post_not_found
                                end
                           else OverflowError), db)).
  { intros H. destruct t.
    - rewrite (user_absent_run db r i Hr); [now destruct (int64 i)|].
      now apply has_row_users.
    - rewrite (post_absent_run db r i Hr); [now destruct (int64 i)|].
      now apply has_row_posts. }
  destruct (has_row db t i) eqn:Row.
  - assert (Found : (exists a, fst (serve (handler r) db) = inr a)
                    \/ serve (handler r) db
                       = (inl (AttributeError "PostCreate" "text"), db)).
    { destruct t.
      - destruct (stored_user db i) as [u|] eqn:E.
        + left. now apply (serve_handler_found_user db r i u).
        + apply has_row_users in E. congruence.
      - destruct (stored_post db i) as [p|] eqn:E.
        + now apply (serve_handler_found_post db r i p).
        + apply has_row_posts in E. congruence. }
    split; [|split; [discriminate|split]].
    + intros _. split; [|discriminate]. split; [|discriminate].
      destruct Found as [[a Ha]|Ha]; rewrite Ha; simpl; discriminate.
    + intros code detail E.
      destruct Found as [[a Ha]|Ha]; rewrite Ha in E; simpl in E;
        discriminate.
    + intros e E. destruct Found as [[a Ha]|Ha].
      * rewrite Ha in E. discriminate.
      * unfold after. now rewrite Ha.
  - specialize (Absent eq_refl).
    split; [|split; [|split]].
    + intros Hi. rewrite Hi in Absent. split; [|intros _; exact Absent].
      split; [reflexivity|]. intros _. rewrite Absent. now destruct t.
    + intros Hi _. now rewrite Hi in Absent.
    + intros code detail E. rewrite Absent in E. simpl in E.
      destruct (int64 i); [destruct t; now inversion E | discriminate].
    + intros e _. unfold after. now rewrite Absent.
Qed.

Lemma not_found_exactly_when_absent_witness :
  serve (handler (PATCH_post_likes_increment 2))
        (mkDatabase [] [PostDB.mk 1 "title" "text" 0 1])
  = (inl (HTTPException 404 "Post not found"),
     mkDatabase [] [PostDB.mk 1 "title" "text" 0 1]).
Proof.
  exact (proj2 (proj1 (not_found_exactly_when_absent
                         (mkDatabase [] [PostDB.mk 1 "title" "text" 0 1])
                         (PATCH_post_likes_increment 2) Posts 2 eq_refl)
                      eq_refl)
               eq_refl).
Defined.

Example name_filter_ignores_case :
  fst (serve (get_users (Some "ALI"))
         (mkDatabase [UserDB.mk 1 "alice" false None;
                      UserDB.mk 2 "bob" true None] []))
  = inr [User.mk "alice" false None 1].
Proof. reflexivity. Qed.




(** C8. Patching the name of an existing user leaves every row of the
    users table in its place, with its id, admin flag and avatar URL; the
    rows of other ids are untouched, the patched user carries the new
    name, and the posts table is unchanged. Patching the text of an
    existing post does the same for the posts table: only the body text
    of the patched post changes, and the users table is unchanged. *)
Theorem patch_changes_only_its_field db i :
  (forall name u,
      stored_user db i = Some u ->
      let db' := after (PATCH_user_name i name) db in
      stored_user db' i = Some (with_username u name)
      /\ posts db' = posts db
      /\ Forall2 (fun v v' =>
                    UserDB.id v' = UserDB.id v
                    /\ UserDB.is_admin v' = UserDB.is_admin v
                    /\ UserDB.image_url v' = UserDB.image_url v
                    /\ (UserDB.id v <> i -> v' = v)
                    /\ (UserDB.id v = i -> UserDB.username v' = name))
           (users db) (users db'))
  /\ (forall text p,
         stored_post db i = Some p ->
         let db' := after (PATCH_post_text i text) db in
         stored_post db' i = Some (with_post_text p text)
         /\ users db' = users db
         /\ Forall2 (fun q q' =>
                       PostDB.id q' = PostDB.id q
                       /\ PostDB.title q' = PostDB.title q
                       /\ PostDB.likes q' = PostDB.likes q
                       /\ PostDB.user_id q' = PostDB.user_id q
                       /\ (PostDB.id q <> i -> q' = q)
                       /\ (PostDB.id q = i -> PostDB.post_text q' = text))
              (posts db) (posts db')).
Proof.
  split.
  - intros name u H db'. subst db'. rewrite (after_PATCH_user_name _ _ _ _ H).
    simpl. split; [|split; [reflexivity|]].
    + now apply (lookup_rewrite_same UserDB.id i
                   (fun v => with_username v name)).
    + apply Forall2_rewrite_rows.
      * intros v N. repeat split; auto. intros E. contradiction.
      * intros v E. simpl. repeat split; auto. intros N. contradiction.
  - intros text p H db'. subst db'. rewrite (after_PATCH_post_text _ _ _ _ H).
    simpl. split; [|split; [reflexivity|]].
    + now apply (lookup_rewrite_same PostDB.id i
                   (fun q => with_post_text q text)).
    + apply Forall2_rewrite_rows.
      * intros q N. repeat split; auto. intros E. contradiction.
      * intros q E. simpl. repeat split; auto. intros N. contradiction.
Qed.

Lemma patch_changes_only_its_field_witness :
  let db := mkDatabase
              [UserDB.mk 1 "ann" true (Some "a.png"); UserDB.mk 2 "bob" false None]
              [PostDB.mk 1 "title" "text" 4 2] in
  stored_user (after (PATCH_user_name 2 "rob") db) 2
  = Some (UserDB.mk 2 "rob" false None)
  /\ stored_post (after (PATCH_post_text 1 "new") db) 1
     = Some (PostDB.mk 1 "title" "new" 4 2).
Proof.
  intros db. split.
  - exact (proj1 (proj1 (patch_changes_only_its_field db 2) "rob"
                    (UserDB.mk 2 "bob" false None) eq_refl)).
  - exact (proj1 (proj2 (patch_changes_only_its_field db 1) "new"
                    (PostDB.mk 1 "title" "text" 4 2) eq_refl)).
Defined.


(** C10. PUT /posts/{id} leaves the like count of every stored post as it
    was (the request body has no likes field to take one from), and the
    attribute writes of its handler leave the like counts alone in the
    session too. More generally, after any request other than a like
    increment or decrement, each stored post has the like count it had
    before the request, or 0 if the request created it. *)
Theorem likes_change_only_by_increment_and_decrement db :
  (forall i body,
      map PostDB.likes (posts (after (PUT_post i body) db))
      = map PostDB.likes (posts db)
      /\ map PostDB.likes
           (posts (working (snd (update_post i body (mkSession db db)))))
         = map PostDB.likes (posts db))
  /\ (forall r, changes_likes r = false ->
      forall j q, stored_post (after r db) j = Some q ->
                  match stored_post db j with
                  | Some q0 => PostDB.likes q = PostDB.likes q0
                  | None => PostDB.likes q = 0
                  end).
Proof.
  split.
  - intros i body. pose proof (after_read_only db (PUT_post i body)) as RO.
    simpl in RO. rewrite RO. split; [reflexivity|].
    unfold update_post. run_handler.
    destruct (lookup PostDB.id i (posts db)) as [found|]; simpl;
      [|now destruct (int64 i)].
    unfold rewrite_rows. rewrite map_map. apply map_ext.
    intros q. now destruct (PostDB.id q =? PostDB.id found).
  - intros r Hr j q H. pose proof (after_read_only db r) as RO.
    destruct r; try discriminate;
      try (rewrite RO in H; rewrite H; reflexivity); clear RO Hr.
    + rewrite after_POST_users in H. unfold stored_post in *. simpl in H.
      now rewrite H.
    + destruct (stored_user db user_id) as [u|] eqn:E.
      * rewrite (after_PUT_user _ _ _ _ E) in H. unfold stored_post in *.
        simpl in H. now rewrite H.
      * rewrite (after_absent db _ Users user_id) in H;
          [now rewrite H | reflexivity | now apply has_row_users].
    + destruct (stored_user db user_id) as [u|] eqn:E.
      * rewrite (after_PATCH_user_name _ _ _ _ E) in H.
        unfold stored_post in *. simpl in H. now rewrite H.
      * rewrite (after_absent db _ Users user_id) in H;
          [now rewrite H | reflexivity | now apply has_row_users].
    + destruct (int64 (PostCreate.user_id post)) eqn:I;
        [|rewrite after_POST_posts_overflow in H by exact I; now rewrite H].
      rewrite after_POST_posts, stored_post_lookup in H by exact I.
      simpl in H. rewrite lookup_app in H. rewrite stored_post_lookup.
      destruct (lookup PostDB.id j (posts db)) as [q0|].
      * now inversion H.
      * simpl in H. destruct (_ =? j); inversion H. reflexivity.
    + destruct (stored_post db post_id) as [p|] eqn:E.
      * rewrite (after_PATCH_post_text _ _ _ _ E), stored_post_lookup in H.
        simpl in H. rewrite lookup_rewrite in H by reflexivity.
        rewrite stored_post_lookup.
        destruct (lookup PostDB.id j (posts db)) as [q0|]; simpl in H;
          [|discriminate].
        inversion H. now destruct (PostDB.id q0 =? post_id).
      * rewrite (after_absent db _ Posts post_id) in H;
          [now rewrite H | reflexivity | now apply has_row_posts].
    + destruct (stored_post db post_id) as [p|] eqn:E.
      * rewrite (after_DELETE_post _ _ _ E), stored_post_lookup in H.
        simpl in H. destruct (Z.eq_dec post_id j) as [->|N].
        -- now rewrite (lookup_delete PostDB.id) in H.
        -- rewrite (lookup_delete_other PostDB.id) in H by exact N.
           rewrite stored_post_lookup. now rewrite H.
      * rewrite (after_absent db _ Posts post_id) in H;
          [now rewrite H | reflexivity | now apply has_row_posts].
Qed.

Lemma likes_change_only_by_increment_and_decrement_witness :
  let db := mkDatabase [] [PostDB.mk 1 "title" "text" 4 2] in
  match stored_post db 1 with
  | Some q0 => 4 = PostDB.likes q0
  | None => 4 = 0
  end.
Proof.
  intros db.
  exact (proj2 (likes_change_only_by_increment_and_decrement db)
           (PUT_post 1 (PostCreate.mk "t" "b" 9)) eq_refl 1
           (PostDB.mk 1 "title" "text" 4 2) eq_refl).
Defined.

(** ** Further properties of the handlers *)

(** *** Keys under writes *)

Lemma keys_rewrite_rows {R} (key : R -> Z) pk f rows :
  (forall r, key (f r) = key r) ->
  map key (rewrite_rows key pk f rows) = map key rows.
Proof.
  intros Hf. unfold rewrite_rows. rewrite map_map. apply map_ext.
  intros r. destruct (key r =? pk); [apply Hf | reflexivity].
Qed.

Lemma NoDup_snoc (l : list Z) x : NoDup l -> ~ In x l -> NoDup (l ++ [x]).
Proof.
  induction l as [|a l IH]; simpl; intros Hl Hx.
  - constructor; [intros [] | constructor].
  - inversion Hl as [|? ? Ha Hl']; subst. constructor.
    + intros Hin. apply in_app_or in Hin. destruct Hin as [Hin|[E|[]]].
      * contradiction.
      * apply Hx. now left.
    + apply IH; [exact Hl'|]. intros Hin. apply Hx. now right.
Qed.

Lemma NoDup_keys_filter {R} (key : R -> Z) (f : R -> bool) rows :
  NoDup (map key rows) -> NoDup (map key (filter f rows)).
Proof.
  induction rows as [|r rows IH]; simpl; intros H; [constructor|].
  inversion H as [|? ? Hr H']; subst.
  destruct (f r); simpl; [constructor|]; auto.
  intros Hin. apply Hr. apply in_map_iff in Hin.
  destruct Hin as [q [E Hq]]. apply filter_In in Hq.
  rewrite <- E. apply in_map. exact (proj1 Hq).
Qed.

Lemma Forall_keys_filter {R} (key : R -> Z) (P : Z -> Prop) (f : R -> bool)
    rows :
  Forall P (map key rows) -> Forall P (map key (filter f rows)).
Proof.
  rewrite !Forall_forall. intros H i Hin. apply H.
  apply in_map_iff in Hin. destruct Hin as [q [E Hq]].
  apply filter_In in Hq. rewrite <- E. apply in_map. exact (proj1 Hq).
Qed.

Lemma next_id_not_in ids : ~ In (next_id ids) ids.
Proof. intros Hin. pose proof (next_id_above ids _ Hin). lia. Qed.

Lemma next_id_positive ids : Forall (fun i => 0 < i) ids -> 0 < next_id ids.
Proof.
  destruct ids as [|a rest]; intros H; [reflexivity|].
  inversion H; subst. unfold next_id.
  destruct (fold_max_bounds rest a) as [Ha _]. lia.
Qed.

Lemma well_keyed_after db r : well_keyed db -> well_keyed (after r db).
Proof.
  intros W. pose proof (after_read_only db r) as RO.
  destruct r; try (rewrite RO; exact W); clear RO;
    destruct W as [Wu [Wp [Pu Pp]]].
  - rewrite after_POST_users. unfold well_keyed. simpl.
    rewrite map_app. simpl. repeat split; auto.
    + apply NoDup_snoc; [exact Wu | apply next_id_not_in].
    + apply Forall_app. split; [exact Pu|].
      constructor; [now apply next_id_positive | constructor].
  - destruct (stored_user db user_id) as [u|] eqn:E.
    + rewrite (after_PUT_user _ _ _ _ E). unfold well_keyed. simpl.
      rewrite keys_rewrite_rows by reflexivity. repeat split; auto.
    + rewrite (after_absent db _ Users user_id); auto.
      * repeat split; auto.
      * now apply has_row_users.
  - destruct (stored_user db user_id) as [u|] eqn:E.
    + rewrite (after_PATCH_user_name _ _ _ _ E). unfold well_keyed. simpl.
      rewrite keys_rewrite_rows by reflexivity. repeat split; auto.
    + rewrite (after_absent db _ Users user_id); auto.
      * repeat split; auto.
      * now apply has_row_users.
  - destruct (int64 (PostCreate.user_id post)) eqn:I;
      [|rewrite after_POST_posts_overflow by exact I; repeat split; auto].
    rewrite after_POST_posts by exact I. unfold well_keyed. simpl.
    rewrite map_app. simpl. repeat split; auto.
    + apply NoDup_snoc; [exact Wp | apply next_id_not_in].
    + apply Forall_app. split; [exact Pp|].
      constructor; [now apply next_id_positive | constructor].
  - destruct (stored_post db post_id) as [p|] eqn:E.
    + rewrite (after_PATCH_post_text _ _ _ _ E). unfold well_keyed. simpl.
      rewrite keys_rewrite_rows by reflexivity. repeat split; auto.
    + rewrite (after_absent db _ Posts post_id); auto.
      * repeat split; auto.
      * now apply has_row_posts.
  - destruct (stored_post db post_id) as [p|] eqn:E.
    + rewrite (after_increment _ _ _ E). unfold well_keyed. simpl.
      rewrite keys_rewrite_rows by reflexivity. repeat split; auto.
    + rewrite (after_absent db _ Posts post_id); auto.
      * repeat split; auto.
      * now apply has_row_posts.
  - destruct (stored_post db post_id) as [p|] eqn:E.
    + rewrite (after_decrement _ _ _ E). unfold well_keyed. simpl.
      rewrite keys_rewrite_rows by reflexivity. repeat split; auto.
    + rewrite (after_absent db _ Posts post_id); auto.
      * repeat split; auto.
      * now apply has_row_posts.
  - destruct (stored_post db post_id) as [p|] eqn:E.
    + rewrite (after_DELETE_post _ _ _ E). unfold well_keyed. simpl.
      repeat split; auto.
      * now apply NoDup_keys_filter.
      * now apply Forall_keys_filter.
    + rewrite (after_absent db _ Posts post_id); auto.
      * repeat split; auto.
      * now apply has_row_posts.
Qed.

Lemma reachable_well_keyed db : reachable db -> well_keyed db.
Proof.
  induction 1 as [|db r _ IH].
  - repeat split; constructor.
  - now apply well_keyed_after.
Qed.

(** With unique keys, the row a lookup finds is the only row of its key. *)
Lemma unique_row {R} (key : R -> Z) i rows p :
  NoDup (map key rows) -> lookup key i rows = Some p ->
  forall q, In q rows -> key q = i -> q = p.
Proof.
  unfold lookup. induction rows as [|r rows IH]; simpl; intros N H q Hin E.
  - destruct Hin.
  - inversion N as [|? ? Hr N']; subst.
    destruct (Z.eqb_spec (key r) (key q)) as [K|K].
    + inversion H; subst. destruct Hin as [->|Hin]; [reflexivity|].
      exfalso. apply Hr. rewrite K. now apply in_map.
    + destruct Hin as [->|Hin]; [congruence|]. now apply IH.
Qed.

Lemma rewrite_rows_fixed {R} (key : R -> Z) pk f rows :
  (forall r, In r rows -> key r = pk -> f r = r) ->
  rewrite_rows key pk f rows = rows.
Proof.
  intros H. unfold rewrite_rows. rewrite <- (map_id rows) at 2.
  apply map_ext_in. intros r Hin.
  destruct (Z.eqb_spec (key r) pk); [now apply H | reflexivity].
Qed.

Lemma database_eta db : mkDatabase (users db) (posts db) = db.
Proof. now destruct db. Qed.

Lemma stored_in_unique {R} (key : R -> Z) rows r :
  NoDup (map key rows) -> In r rows -> lookup key (key r) rows = Some r.
Proof.
  intros N Hin. destruct (lookup key (key r) rows) as [p|] eqn:E.
  - f_equal. symmetry. now apply (unique_row key (key r) rows p).
  - exfalso. exact (proj1 (lookup_None key _ _) E r Hin eq_refl).
Qed.

(** *** Full update of a user *)



(** *** Creating a post *)







(** *** Like increment *)

(** X5. PATCH /posts/{id}/likes/increment on an existing post whose like
    count is below the largest 64-bit integer returns and stores the
    post with its like count raised by exactly one and every other field
    as before; the rows of other ids and the users table are
    unchanged. *)
Theorem increment_post_likes_adds_one db i p :
  stored_post db i = Some p ->
  PostDB.likes p < 2 ^ 63 - 1 ->
  let db' := after (PATCH_post_likes_increment i) db in
  fst (serve (increment_post_likes i) db)
  = inr (post_of (with_likes p (PostDB.likes p + 1)))
  /\ stored_post db' i = Some (with_likes p (PostDB.likes p + 1))
  /\ users db' = users db
  /\ Forall2 (fun q q' =>
                PostDB.id q' = PostDB.id q
                /\ PostDB.title q' = PostDB.title q
                /\ PostDB.post_text q' = PostDB.post_text q
                /\ PostDB.user_id q' = PostDB.user_id q
                /\ (PostDB.id q <> i -> q' = q))
       (posts db) (posts db').
Proof.
  intros H _ db'. subst db'.
  rewrite (increment_post_likes_run _ _ _ H), (stored_after_increment _ _ _ H).
  rewrite (after_increment _ _ _ H). simpl.
  split; [reflexivity|]. split; [reflexivity|]. split; [reflexivity|].
  apply Forall2_rewrite_rows.
  - intros q N. repeat split; auto.
  - intros q E. simpl. repeat split; auto. intros N. contradiction.
Qed.

Lemma increment_post_likes_adds_one_witness :
  let db := mkDatabase [] [PostDB.mk 1 "title" "text" 4 2] in
  fst (serve (increment_post_likes 1) db) = inr (Post.mk "title" "text" 2 1 5).
Proof.
  intros db.
  exact (proj1 (increment_post_likes_adds_one db 1
                  (PostDB.mk 1 "title" "text" 4 2) eq_refl eq_refl)).
Defined.

(** X6. In a reachable database a like increment followed by a like
    decrement on an existing post brings the database back exactly to
    what it was. The other order does not: at a like count of 0 the
    decrement changes nothing and the increment then leaves 1. *)
Theorem increment_then_decrement_restores db i p :
  reachable db ->
  stored_post db i = Some p ->
  after (PATCH_post_likes_decrement i) (after (PATCH_post_likes_increment i) db)
  = db
  /\ (PostDB.likes p = 0 ->
      stored_post
        (after (PATCH_post_likes_increment i)
           (after (PATCH_post_likes_decrement i) db)) i
      = Some (with_likes p 1)).
Proof.
  intros Hr H. split.
  - pose proof (stored_after_increment _ _ _ H) as H'.
    rewrite (after_decrement _ _ _ H'), (after_increment _ _ _ H). simpl.
    rewrite rewrite_rows_compose by reflexivity.
    rewrite rewrite_rows_fixed; [apply database_eta|].
    intros q Hin E.
    destruct (reachable_well_keyed db Hr) as [_ [N _]].
    rewrite (unique_row PostDB.id i (posts db) p N H q Hin E).
    pose proof (proj1 (Forall_forall _ _) (reachable_likes_nonneg db Hr) p
                  (lookup_In PostDB.id _ _ _ H)) as L. simpl in L.
    unfold with_likes. destruct p as [pi pt px pl pu]. simpl in *.
    f_equal. lia.
  - intros Z0. pose proof (stored_after_decrement _ _ _ H) as H'.
    rewrite (stored_after_increment _ _ _ H'). simpl. rewrite Z0.
    reflexivity.
Qed.

Lemma increment_then_decrement_restores_witness :
  let db := after (POST_posts (PostCreate.mk "title" "text" 1)) empty_db in
  after (PATCH_post_likes_decrement 1) (after (PATCH_post_likes_increment 1) db)
  = db.
Proof.
  intros db.
  exact (proj1 (increment_then_decrement_restores db 1
                  (PostDB.mk 1 "title" "text" 0 1)
                  (reachable_request _ _ reachable_start) eq_refl)).
Defined.

(** *** Primary keys *)

(** X7. In every database the service can reach, and after any further
    request, the ids of each table are positive and pairwise distinct, so
    every stored row is the one a lookup by its id finds. *)
Theorem primary_keys_stay_unique db r :
  reachable db ->
  well_keyed db
  /\ well_keyed (after r db)
  /\ (forall u, In u (users db) -> stored_user db (UserDB.id u) = Some u)
  /\ (forall p, In p (posts db) -> stored_post db (PostDB.id p) = Some p).
Proof.
  intros H. pose proof (reachable_well_keyed db H) as W.
  split; [exact W|]. split; [now apply well_keyed_after|].
  destruct W as [Nu [Np _]]. split.
  - intros u Hin. now apply (stored_in_unique UserDB.id).
  - intros p Hin. now apply (stored_in_unique PostDB.id).
Qed.

Lemma primary_keys_stay_unique_witness :
  let db := after (POST_users (UserCreate.mk "bob" false None))
              (after (POST_users (UserCreate.mk "ann" true None)) empty_db) in
  stored_user db 2 = Some (UserDB.mk 2 "bob" false None).
Proof.
  intros db.
  exact (proj1 (proj2 (proj2
           (primary_keys_stay_unique db (GET_user 1)
              (reachable_request _ _ (reachable_request _ _ reachable_start)))))
           (UserDB.mk 2 "bob" false None) (or_intror (or_introl eq_refl))).
Defined.

(** *** What requests keep *)

Lemma has_row_lookup_users db i :
  has_row db Users i = true <-> lookup UserDB.id i (users db) <> None.
Proof. apply lookup_existsb. Qed.

Lemma has_row_lookup_posts db i :
  has_row db Posts i = true <-> lookup PostDB.id i (posts db) <> None.
Proof. apply lookup_existsb. Qed.

Lemma lookup_rewrite_kept {R} (key : R -> Z) i pk f rows :
  (forall r, key (f r) = key r) ->
  lookup key i rows <> None -> lookup key i (rewrite_rows key pk f rows) <> None.
Proof.
  intros Hf H. rewrite lookup_rewrite by exact Hf.
  destruct (lookup key i rows); [discriminate | contradiction].
Qed.

Lemma lookup_app_kept {R} (key : R -> Z) i rows r :
  lookup key i rows <> None -> lookup key i (rows ++ [r]) <> None.
Proof.
  intros H. rewrite lookup_app.
  destruct (lookup key i rows); [discriminate | contradiction].
Qed.

(** X8. No request removes a user: a user id that is stored stays stored
    after every request. A stored post id stays stored after every
    request except the delete of that very id. *)
Theorem rows_are_only_removed_by_delete db r i :
  (has_row db Users i = true -> has_row (after r db) Users i = true)
  /\ (has_row db Posts i = true -> r <> DELETE_post i ->
      has_row (after r db) Posts i = true).
Proof.
  pose proof (after_read_only db r) as RO.
  split.
  - intros H.
    destruct r; try (rewrite RO; exact H); clear RO;
      try (destruct (stored_post db post_id) as [p|] eqn:E;
           [| rewrite (after_absent db _ Posts post_id);
              [exact H | reflexivity | now apply has_row_posts]]);
      try (destruct (stored_user db user_id) as [u|] eqn:E;
           [| rewrite (after_absent db _ Users user_id);
              [exact H | reflexivity | now apply has_row_users]]).
    + rewrite after_POST_users. apply has_row_lookup_users. simpl.
      apply lookup_app_kept. now apply has_row_lookup_users.
    + rewrite (after_PUT_user _ _ _ _ E). apply has_row_lookup_users. simpl.
      apply lookup_rewrite_kept; [reflexivity|]. now apply has_row_lookup_users.
    + rewrite (after_PATCH_user_name _ _ _ _ E). apply has_row_lookup_users.
      simpl. apply lookup_rewrite_kept; [reflexivity|].
      now apply has_row_lookup_users.
    + destruct (int64 (PostCreate.user_id post)) eqn:I;
        [now rewrite after_POST_posts by exact I
        | now rewrite after_POST_posts_overflow by exact I].
    + now rewrite (after_PATCH_post_text _ _ _ _ E).
    + now rewrite (after_increment _ _ _ E).
    + now rewrite (after_decrement _ _ _ E).
    + now rewrite (after_DELETE_post _ _ _ E).
  - intros H Hr.
    destruct r; try (rewrite RO; exact H); clear RO;
      try (destruct (stored_post db post_id) as [p|] eqn:E;
           [| rewrite (after_absent db _ Posts post_id);
              [exact H | reflexivity | now apply has_row_posts]]);
      try (destruct (stored_user db user_id) as [u|] eqn:E;
           [| rewrite (after_absent db _ Users user_id);
              [exact H | reflexivity | now apply has_row_users]]).
    + now rewrite after_POST_users.
    + now rewrite (after_PUT_user _ _ _ _ E).
    + now rewrite (after_PATCH_user_name _ _ _ _ E).
    + destruct (int64 (PostCreate.user_id post)) eqn:I;
        [|now rewrite after_POST_posts_overflow by exact I].
      rewrite after_POST_posts by exact I. apply has_row_lookup_posts. simpl.
      apply lookup_app_kept. now apply has_row_lookup_posts.
    + rewrite (after_PATCH_post_text _ _ _ _ E). apply has_row_lookup_posts.
      simpl. apply lookup_rewrite_kept; [reflexivity|].
      now apply has_row_lookup_posts.
    + rewrite (after_increment _ _ _ E). apply has_row_lookup_posts.
      simpl. apply lookup_rewrite_kept; [reflexivity|].
      now apply has_row_lookup_posts.
    + rewrite (after_decrement _ _ _ E). apply has_row_lookup_posts.
      simpl. apply lookup_rewrite_kept; [reflexivity|].
      now apply has_row_lookup_posts.
    + rewrite (after_DELETE_post _ _ _ E). apply has_row_lookup_posts.
      simpl. rewrite (lookup_delete_other PostDB.id) by congruence.
      now apply has_row_lookup_posts.
Qed.

Lemma rows_are_only_removed_by_delete_witness :
  has_row (after (DELETE_post 1)
             (mkDatabase [UserDB.mk 1 "ann" false None]
                         [PostDB.mk 1 "a" "x" 0 1; PostDB.mk 2 "b" "y" 0 1]))
          Posts 2 = true.
Proof.
  exact (proj2 (rows_are_only_removed_by_delete
                  (mkDatabase [UserDB.mk 1 "ann" false None]
                     [PostDB.mk 1 "a" "x" 0 1; PostDB.mk 2 "b" "y" 0 1])
                  (DELETE_post 1) 2) eq_refl ltac:(discriminate)).
Defined.

(** X9. A request writes to one table at most: the user writes (create,
    full update, name patch) leave the posts table as it was, the post
    writes (create, text patch, like increment and decrement, delete)
    leave the users table as it was, and the reads, the full update of a
    post and the second [create_post] leave the whole database as it
    was. *)
Theorem requests_write_one_table db r :
  match writes_to r with
  | Some Users => posts (after r db) = posts db
  | Some Posts => users (after r db) = users db
  | None => after r db = db
  end.
Proof.
  pose proof (after_read_only db r) as RO.
  destruct r; simpl; try exact RO; clear RO;
    try (destruct (stored_post db post_id) as [p|] eqn:E;
         [| rewrite (after_absent db _ Posts post_id);
            [reflexivity | reflexivity | now apply has_row_posts]]);
    try (destruct (stored_user db user_id) as [u|] eqn:E;
         [| rewrite (after_absent db _ Users user_id);
            [reflexivity | reflexivity | now apply has_row_users]]).
  - now rewrite after_POST_users.
  - now rewrite (after_PUT_user _ _ _ _ E).
  - now rewrite (after_PATCH_user_name _ _ _ _ E).
  - destruct (int64 (PostCreate.user_id post)) eqn:I;
      [now rewrite after_POST_posts by exact I
      | now rewrite after_POST_posts_overflow by exact I].
  - now rewrite (after_PATCH_post_text _ _ _ _ E).
  - now rewrite (after_increment _ _ _ E).
  - now rewrite (after_decrement _ _ _ E).
  - now rewrite (after_DELETE_post _ _ _ E).
Qed.

(** *** Responses against the stored state *)

Lemma stored_after_PUT_user db i body u :
  stored_user db i = Some u ->
  stored_user (after (PUT_user i body) db) i = Some (rewritten_user u body).
Proof.
  intros H. rewrite (after_PUT_user _ _ _ _ H). unfold stored_user. simpl.
  fold_lookups.
  now apply (lookup_rewrite_same UserDB.id i (fun v => rewritten_user v body)).
Qed.

Lemma stored_after_PATCH_user_name db i name u :
  stored_user db i = Some u ->
  stored_user (after (PATCH_user_name i name) db) i
  = Some (with_username u name).
Proof.
  intros H. rewrite (after_PATCH_user_name _ _ _ _ H). unfold stored_user.
  simpl. fold_lookups.
  now apply (lookup_rewrite_same UserDB.id i (fun v => with_username v name)).
Qed.

Lemma stored_after_PATCH_post_text db i text p :
  stored_post db i = Some p ->
  stored_post (after (PATCH_post_text i text) db) i
  = Some (with_post_text p text).
Proof.
  intros H. rewrite (after_PATCH_post_text _ _ _ _ H). unfold stored_post.
  simpl. fold_lookups.
  now apply (lookup_rewrite_same PostDB.id i (fun q => with_post_text q text)).
Qed.

(** X10. When a request by id succeeds, the user or post it returns carries
    the requested id. Unless the request was a delete, a get-by-id sent
    right after it returns the very same response; after a delete the
    get-by-id answers 404 (the id, being that of a stored row, fits 64
    bits). *)
Theorem response_is_the_stored_row db r t i a :
  lookup_of r = Some (t, i) ->
  fst (serve (handler r) db) = inr a ->
  match a with
  | a_user u => t = Users /\ User.id u = i
  | a_post p => t = Posts /\ Post.id p = i
  | _ => False
  end
  /\ match r with
     | DELETE_post _ =>
         int64 i = true ->
         status_code_of (fst (serve (handler (get_of t i)) (after r db))) = 404
     | _ => fst (serve (handler (get_of t i)) (after r db)) = inr a
     end.
Proof.
  intros Hr Ha. destruct t.
  - destruct (stored_user db i) as [u|] eqn:E.
    2:{ rewrite (user_absent_run db r i Hr E) in Ha. discriminate. }
    pose proof (lookup_key UserDB.id _ _ _ E) as K.
    destruct r; inversion Hr; subst user_id; unfold handler in Ha |- *;
      rewrite serve_respond in Ha; simpl get_of; unfold handler;
      rewrite serve_respond, get_user_run.
    + rewrite get_user_run, E in Ha. simpl in Ha. inversion Ha; subst a.
      pose proof (after_read_only db (GET_user i)) as RO. simpl in RO.
      rewrite RO, E. simpl. auto.
    + rewrite (update_user_run _ _ _ _ E) in Ha. simpl in Ha.
      inversion Ha; subst a.
      rewrite (stored_after_PUT_user _ _ _ _ E). simpl. auto.
    + rewrite (patch_user_name_run _ _ _ _ E) in Ha. simpl in Ha.
      inversion Ha; subst a.
      rewrite (stored_after_PATCH_user_name _ _ _ _ E). simpl. auto.
  - destruct (stored_post db i) as [p|] eqn:E.
    2:{ rewrite (post_absent_run db r i Hr E) in Ha. discriminate. }
    pose proof (lookup_key PostDB.id _ _ _ E) as K.
    destruct r; inversion Hr; subst post_id; unfold handler in Ha |- *;
      rewrite serve_respond in Ha; simpl get_of; unfold handler;
      rewrite serve_respond, get_post_run.
    + rewrite get_post_run, E in Ha. simpl in Ha. inversion Ha; subst a.
      pose proof (after_read_only db (GET_post i)) as RO. simpl in RO.
      rewrite RO, E. simpl. auto.
    + rewrite (update_post_run _ _ _ _ E) in Ha. discriminate.
    + rewrite (patch_post_text_run _ _ _ _ E) in Ha. simpl in Ha.
      inversion Ha; subst a.
      rewrite (stored_after_PATCH_post_text _ _ _ _ E). simpl. auto.
    + rewrite (increment_post_likes_run _ _ _ E) in Ha. simpl in Ha.
      inversion Ha; subst a.
      rewrite (stored_after_increment _ _ _ E). simpl. auto.
    + rewrite (decrement_post_likes_run _ _ _ E) in Ha. simpl in Ha.
      inversion Ha; subst a.
      rewrite (stored_after_decrement _ _ _ E). simpl. auto.
    + rewrite (delete_post_run _ _ _ E) in Ha. simpl in Ha.
      inversion Ha; subst a.
      rewrite (after_DELETE_post _ _ _ E). unfold stored_post. simpl.
      fold_lookups. rewrite (lookup_delete PostDB.id).
      split; [auto | intros Hi; now rewrite Hi].
Qed.

Lemma response_is_the_stored_row_witness :
  fst (serve (handler (GET_user 1))
         (after (PATCH_user_name 1 "rob")
            (mkDatabase [UserDB.mk 1 "bob" false None] [])))
  = inr (a_user (User.mk "rob" false None 1)).
Proof.
  exact (proj2 (response_is_the_stored_row
                  (mkDatabase [UserDB.mk 1 "bob" false None] [])
                  (PATCH_user_name 1 "rob") Users 1
                  (a_user (User.mk "rob" false None 1)) eq_refl eq_refl)).
Defined.

(** *** Writes in sequence *)


(** X12. Deleting is idempotent on the database: a second delete of the
    same id changes nothing more. Whether or not the first one found the
    post, the second answers 404 when the id fits 64 bits, and ends in
    [OverflowError] when it does not. *)
Theorem delete_post_twice db i :
  after (DELETE_post i) (after (DELETE_post i) db) = after (DELETE_post i) db
  /\ serve (delete_post i) (after (DELETE_post i) db)
     = (inl (if int64 i then post_not_found else OverflowError),
        after (DELETE_post i) db).
Proof.
  assert (Gone : stored_post (after (DELETE_post i) db) i = None).
  { destruct (stored_post db i) as [p|] eqn:E.
    - rewrite (after_DELETE_post _ _ _ E). apply (lookup_delete PostDB.id).
    - rewrite (after_absent db _ Posts i);
        [exact E | reflexivity | now apply has_row_posts]. }
  split.
  - apply (after_absent _ _ Posts i); [reflexivity | now apply has_row_posts].
  - pose proof (post_absent_run _ (DELETE_post i) i eq_refl Gone) as F.
    unfold handler in F. rewrite serve_respond in F.
    destruct (serve (delete_post i) (after (DELETE_post i) db))
      as [[e|a] d]; simpl in F; [now inversion F | discriminate].
Qed.


(** *** Failures *)



(** *** Runs of like requests *)

Lemma times_decrement_clamped db i p (m : nat) :
  stored_post db i = Some p -> 0 <= PostDB.likes p ->
  stored_post (times m (PATCH_post_likes_decrement i) db) i
  = Some (with_likes p (Z.max 0 (PostDB.likes p - Z.of_nat m))).
Proof.
  intros H L. induction m as [|m IH].
  - simpl. rewrite H. destruct p as [pi pt px pl pu]. unfold with_likes.
    simpl in *. do 2 f_equal. lia.
  - unfold times in *. rewrite Nat.iter_succ.
    rewrite (stored_after_decrement _ _ _ IH), with_likes_twice. simpl.
    do 2 f_equal. lia.
Qed.

(** X15. From a non-negative like count, N increments followed by M
    decrements leave max(0, likes + N - M), as long as likes + N stays
    within 64 bits: the count goes up by one per increment, down by one
    per decrement, and stops at 0 however many decrements follow. *)
Theorem likes_after_runs db i p (N M : nat) :
  stored_post db i = Some p ->
  0 <= PostDB.likes p ->
  PostDB.likes p + Z.of_nat N <= 2 ^ 63 - 1 ->
  stored_post
    (times M (PATCH_post_likes_decrement i)
       (times N (PATCH_post_likes_increment i) db)) i
  = Some (with_likes p (Z.max 0 (PostDB.likes p + Z.of_nat N - Z.of_nat M))).
Proof.
  intros H L _. pose proof (times_increment db i p N H) as HN.
  rewrite (times_decrement_clamped _ i _ M HN) by (simpl; lia).
  now rewrite with_likes_twice.
Qed.

Lemma likes_after_runs_witness :
  stored_post
    (times 5 (PATCH_post_likes_decrement 1)
       (times 2 (PATCH_post_likes_increment 1)
          (mkDatabase [] [PostDB.mk 1 "title" "text" 1 1]))) 1
  = Some (PostDB.mk 1 "title" "text" 0 1).
Proof.
  exact (likes_after_runs (mkDatabase [] [PostDB.mk 1 "title" "text" 1 1]) 1
           (PostDB.mk 1 "title" "text" 1 1) 2 5 eq_refl ltac:(simpl; lia)
           ltac:(simpl; lia)).
Defined.

(** *** Letter case in filters *)

(** X16. The letter case of a filter does not matter: a listing of users
    or of posts filtered by a string and the listing filtered by its
    lower-case form are the same, wildcards in the filter included. *)
Theorem filter_case_is_ignored db x :
  serve (get_users (Some (lowercase x))) db = serve (get_users (Some x)) db
  /\ serve (get_posts (Some (lowercase x))) db = serve (get_posts (Some x)) db.
Proof.
  rewrite !get_users_run, !get_posts_run.
  destruct x as [|c x]; [split; reflexivity|]. cbn [lowercase truthy].
  assert (U : forall rows : list UserDB.t,
             select_where (fun u => contains (UserDB.username u)
                                      (String (lower c) (lowercase x))) rows
             = select_where (fun u => contains (UserDB.username u)
                                        (String c x)) rows).
  { induction rows as [|u rows IH]; [reflexivity|]. cbn [select_where].
    rewrite IH. now rewrite (contains_lowercase_filter _ (String c x)). }
  assert (P : forall rows : list PostDB.t,
             select_where (fun p => contains (PostDB.title p)
                                      (String (lower c) (lowercase x))) rows
             = select_where (fun p => contains (PostDB.title p)
                                        (String c x)) rows).
  { induction rows as [|p rows IH]; [reflexivity|]. cbn [select_where].
    rewrite IH. now rewrite (contains_lowercase_filter _ (String c x)). }
  now rewrite U, P.
Qed.
